(** * BerryDB page pool: a shallow embedding of [page_pool.cc] and [page.h]

    The page pool is single-threaded C++ that mutates three kinds of objects:
    the [PagePool] itself, the [Page] control blocks it hands out, and the
    [StoreImpl] objects the pages cache data for.  The embedding keeps those
    objects in one [World] (pool, page arena, store arena, I/O log) and
    threads it through every call with a small state monad, so that each
    definition can be read side by side with the member function it follows.

    Pointers are indices into the arenas.  The three intrusive lists of the
    pool and the list of a store are sequences of page indices; the list
    nodes embedded in the control block are not represented.  A [DCHECK] is
    an assertion, not behaviour: the definitions follow what the function
    does when its assertions hold or are compiled out.  The one function
    whose effect exists in DCHECK builds only, [Page::UnassignFromStore],
    carries its assertions: where one of them fails the world is marked and
    the effect does not take place. *)

From Stdlib Require Import ZArith Lia.
From Stdlib.Strings Require Import Byte.
From stdpp Require Import base option list gmap.

Local Open Scope Z_scope.

(** ** Machine integers *)

(** [size_t] is taken to be 64 bits wide; [++] and [--] wrap. *)
Definition size_t_modulus : Z := 2 ^ 64.

Definition wrap (z : Z) : Z := z mod size_t_modulus.

(** ** Build configuration *)

(** [DCHECK_IS_ON()] is a compile-time switch.  Besides enabling the
    assertions, it changes what two functions do: [Page::UnassignFromStore]
    only resets the owner field under it, and [PagePool::FetchStorePage] only
    fills the buffer with 0xCD under it. *)
Class BuildConfig := { DCHECK_IS_ON : bool }.

Definition debug_build : BuildConfig := {| DCHECK_IS_ON := true |}.
Definition release_build : BuildConfig := {| DCHECK_IS_ON := false |}.

(** ** Data model *)

(** Modelled from the spec: the status codes of berrydb/status.h (the header
    is not among the sources): Success, PoolFull and IoError are the codes the
    page pool surfaces. *)
Inductive Status : Type :=
| kSuccess
| kIoError
| kPoolFull.

#[global] Instance Status_eq_dec : EqDecision Status.
Proof. solve_decision. Defined.

(** [PagePool::PageFetchMode] (page_pool.h). *)
Inductive PageFetchMode : Type :=
| kFetchPageData
| kIgnorePageData.

(** [StoreImpl::State] (store_impl.h). *)
Inductive State : Type :=
| kOpen
| kClosing
| kClosed.

#[global] Instance State_eq_dec : EqDecision State.
Proof. solve_decision. Defined.

(** A [Page*] is an index into the page arena, a [StoreImpl*] an index into
    the store arena; a nullable pointer is an [option]. *)
Abbreviation PageRef := nat (only parsing).
Abbreviation StoreRef := nat (only parsing).

(** The control block of page.h.  [transaction_] is the owner the entry is
    assigned to ([None] is [nullptr]); page_pool.cc reads it through
    [store()], so the owner is recorded as the store.  [data_] is the buffer
    that follows the control block in memory. *)
Record Page : Type := mkPage {
  transaction_ : option StoreRef;
  page_id_ : Z;
  pin_count_ : Z;
  is_dirty_ : bool;
  data_ : list byte
}.

#[global] Instance Page_inhabited : Inhabited Page :=
  populate (mkPage None 0 0 false []).

(** The block-access file behind a store, with the error injection of
    test/block_access_file_wrapper.h: while [access_error_] is not
    [kSuccess] every I/O call returns it without reaching the file.
    [file_blocks] maps a byte offset to the page-sized block stored there. *)
Record BlockAccessFile : Type := mkFile {
  file_blocks : gmap Z (list byte);
  access_error_ : Status
}.

(** The members of [StoreImpl] the page pool touches. *)
Record StoreImpl : Type := mkStore {
  data_file_ : BlockAccessFile;
  pool_pages_ : list PageRef;
  state_ : State
}.

#[global] Instance StoreImpl_inhabited : Inhabited StoreImpl :=
  populate (mkStore (mkFile ∅ kSuccess) [] kClosed).

(** The members of [PagePool] (page_pool.h).  The three [LinkedList<Page>]
    members are sequences of page references, head first. *)
Record PagePool : Type := mkPool {
  page_map_ : gmap (StoreRef * Z) PageRef;
  page_shift_ : Z;
  page_size_ : Z;
  page_capacity_ : Z;
  page_count_ : Z;
  free_list_ : list PageRef;
  lru_list_ : list PageRef;
  log_list_ : list PageRef
}.

(** Calls that reach a store's data file handle. *)
Inductive IoEvent : Type :=
| IoRead (store : StoreRef) (offset : Z)
| IoWrite (store : StoreRef) (offset : Z) (bytes : list byte).

(** [dcheck_failed] is set once an assertion of a build with DCHECKs has
    failed (see [dcheck] below). *)
Record World : Type := mkWorld {
  pool : PagePool;
  pages : list Page;
  stores : list StoreImpl;
  io_log : list IoEvent;
  dcheck_failed : bool
}.

(** ** Field updates *)

Definition set_pool (f : PagePool -> PagePool) (w : World) : World :=
  mkWorld (f (pool w)) (pages w) (stores w) (io_log w) (dcheck_failed w).

Definition set_pages (f : list Page -> list Page) (w : World) : World :=
  mkWorld (pool w) (f (pages w)) (stores w) (io_log w) (dcheck_failed w).

Definition set_stores (f : list StoreImpl -> list StoreImpl) (w : World) : World :=
  mkWorld (pool w) (pages w) (f (stores w)) (io_log w) (dcheck_failed w).

Definition set_io_log (f : list IoEvent -> list IoEvent) (w : World) : World :=
  mkWorld (pool w) (pages w) (stores w) (f (io_log w)) (dcheck_failed w).

Definition mark_dcheck_failed (w : World) : World :=
  mkWorld (pool w) (pages w) (stores w) (io_log w) true.

Definition with_page_map (f : gmap (StoreRef * Z) PageRef -> gmap (StoreRef * Z) PageRef)
    (p : PagePool) : PagePool :=
  mkPool (f (page_map_ p)) (page_shift_ p) (page_size_ p) (page_capacity_ p)
         (page_count_ p) (free_list_ p) (lru_list_ p) (log_list_ p).

Definition with_page_count (f : Z -> Z) (p : PagePool) : PagePool :=
  mkPool (page_map_ p) (page_shift_ p) (page_size_ p) (page_capacity_ p)
         (f (page_count_ p)) (free_list_ p) (lru_list_ p) (log_list_ p).

Definition with_free_list (f : list PageRef -> list PageRef) (p : PagePool) : PagePool :=
  mkPool (page_map_ p) (page_shift_ p) (page_size_ p) (page_capacity_ p)
         (page_count_ p) (f (free_list_ p)) (lru_list_ p) (log_list_ p).

Definition with_lru_list (f : list PageRef -> list PageRef) (p : PagePool) : PagePool :=
  mkPool (page_map_ p) (page_shift_ p) (page_size_ p) (page_capacity_ p)
         (page_count_ p) (free_list_ p) (f (lru_list_ p)) (log_list_ p).

Definition with_transaction (o : option StoreRef) (pg : Page) : Page :=
  mkPage o (page_id_ pg) (pin_count_ pg) (is_dirty_ pg) (data_ pg).

Definition with_page_id (i : Z) (pg : Page) : Page :=
  mkPage (transaction_ pg) i (pin_count_ pg) (is_dirty_ pg) (data_ pg).

Definition with_pin_count (f : Z -> Z) (pg : Page) : Page :=
  mkPage (transaction_ pg) (page_id_ pg) (f (pin_count_ pg)) (is_dirty_ pg) (data_ pg).

Definition with_is_dirty (b : bool) (pg : Page) : Page :=
  mkPage (transaction_ pg) (page_id_ pg) (pin_count_ pg) b (data_ pg).

Definition with_data (d : list byte) (pg : Page) : Page :=
  mkPage (transaction_ pg) (page_id_ pg) (pin_count_ pg) (is_dirty_ pg) d.

Definition with_data_file (f : BlockAccessFile -> BlockAccessFile) (s : StoreImpl) : StoreImpl :=
  mkStore (f (data_file_ s)) (pool_pages_ s) (state_ s).

Definition with_pool_pages (f : list PageRef -> list PageRef) (s : StoreImpl) : StoreImpl :=
  mkStore (data_file_ s) (f (pool_pages_ s)) (state_ s).

Definition with_state (st : State) (s : StoreImpl) : StoreImpl :=
  mkStore (data_file_ s) (pool_pages_ s) st.

(** ** The state monad the calls run in *)

Definition M (A : Type) : Type := World -> A * World.

Definition ret {A : Type} (a : A) : M A := fun w => (a, w).

Definition bind {A B : Type} (m : M A) (k : A -> M B) : M B :=
  fun w => let (a, w') := m w in k a w'.

Notation "'do' x <- m ; k" := (bind m (fun x => k))
  (at level 10, x name, m at level 100, k at level 200).
Notation "'run' m ; k" := (bind m (fun _ => k))
  (at level 10, m at level 100, k at level 200).

Definition get_page (page : PageRef) : M Page :=
  fun w => (pages w !!! page, w).

Definition modify_page (page : PageRef) (f : Page -> Page) : M unit :=
  fun w => (tt, set_pages (alter f page) w).

Definition get_store (store : StoreRef) : M StoreImpl :=
  fun w => (stores w !!! store, w).

Definition modify_store (store : StoreRef) (f : StoreImpl -> StoreImpl) : M unit :=
  fun w => (tt, set_stores (alter f store) w).

Definition get_pool : M PagePool := fun w => (pool w, w).

Definition modify_pool (f : PagePool -> PagePool) : M unit :=
  fun w => (tt, set_pool f w).

Definition log_io (e : IoEvent) : M unit :=
  fun w => (tt, set_io_log (fun l => l ++ [e]) w).

(** Runs [f] on every element of [l], in order. *)
Fixpoint for_each {A : Type} (l : list A) (f : A -> M unit) : M unit :=
  match l with
  | [] => ret tt
  | x :: l' => run f x; for_each l' f
  end.

(** [DCHECK(condition)] followed by [rest], in a build that compiles DCHECKs
    in: a condition that does not hold ends the process at the assertion.
    The world keeps the mark and [rest] is not run; whatever is computed from
    a marked world is run by no build. *)
Definition dcheck (condition : bool) (rest : M unit) : M unit :=
  if condition then rest else fun w => (tt, mark_dcheck_failed w).

(** ** util/linked_list.h

    The header is not among the sources.  The members page_pool.cc and
    store_impl.h call have the meaning of their [std::list] namesakes; the
    comment on [lru_list_] in page_pool.h fixes the direction: [pop_front]
    removes the first entry, [push_back] adds at the end.  [empty()] and
    [front()] are read off a list by pattern matching. *)

(** Modelled from the spec: [LinkedList::push_back], which appends at the
    tail. *)
Definition LinkedList_push_back (l : list PageRef) (page : PageRef) : list PageRef :=
  l ++ [page].

(** Modelled from the spec: [LinkedList::pop_front], which removes the head. *)
Definition LinkedList_pop_front (l : list PageRef) : list PageRef := tail l.

(** Modelled from the spec: [LinkedList::size]. *)
Definition LinkedList_size (l : list PageRef) : Z := Z.of_nat (length l).

(** Modelled from the spec: [LinkedList::erase], which unlinks the entry. *)
Definition LinkedList_erase (l : list PageRef) (page : PageRef) : list PageRef :=
  filter (fun q => q ≠ page) l.

(** ** berrydb/vfs.h: the block-access file

    Only the base-class constructor and the declaration of the test wrapper
    are among the sources.  The file handle of a store is the wrapper of
    test/block_access_file_wrapper.h around a file that works. *)

(** Modelled from the spec: [BlockAccessFile::Read], which returns a status.
    While an access error is set the call returns it; otherwise it reads the
    block at [offset], and a block that was never written is a short read,
    which fails. *)
Definition BlockAccessFile_Read (f : BlockAccessFile) (offset byte_count : Z)
    : Status * list byte :=
  if decide (access_error_ f = kSuccess) then
    match file_blocks f !! offset with
    | Some bytes => (kSuccess, take (Z.to_nat byte_count) bytes)
    | None => (kIoError, [])
    end
  else (access_error_ f, []).

(** Modelled from the spec: [BlockAccessFile::Write], which returns a status.
    While an access error is set the call returns it and the file is not
    reached; otherwise [byte_count] bytes of the buffer become the block at
    [offset]. *)
Definition BlockAccessFile_Write (f : BlockAccessFile) (buffer : list byte)
    (offset byte_count : Z) : Status * BlockAccessFile :=
  if decide (access_error_ f = kSuccess) then
    (kSuccess,
     mkFile (<[offset := take (Z.to_nat byte_count) buffer]> (file_blocks f))
            (access_error_ f))
  else (access_error_ f, f).

(** [BlockAccessFileWrapper::SetAccessError]. *)
Definition SetAccessError (store : StoreRef) (access_error : Status) : M unit :=
  modify_store store
    (with_data_file (fun f => mkFile (file_blocks f) access_error)).

Section Operations.

Context {build : BuildConfig}.

(** ** page.h: the control block *)

(** Modelled from the spec: [Page::store()] and
    [Page::AssignToStore(store, page_id)], which page_pool.cc calls.  The
    page.h at hand has the same accessor and entry point for the owner as
    [transaction()] and [Assign(transaction, page_id)]; their bodies are
    followed here, with the store as the owner. *)
Definition Page_store (page : PageRef) : M (option StoreRef) :=
  do pg <- get_page page; ret (transaction_ pg).

(** Modelled from the spec: [Page::AssignToStore(store, page_id)], with the
    body of [Assign] in page.h. *)
Definition Page_AssignToStore (page : PageRef) (store : StoreRef) (page_id : Z) : M unit :=
  modify_page page (fun pg => with_page_id page_id (with_transaction (Some store) pg)).

Definition Page_page_id (page : PageRef) : M Z :=
  do pg <- get_page page; ret (page_id_ pg).

Definition Page_is_dirty (page : PageRef) : M bool :=
  do pg <- get_page page; ret (is_dirty_ pg).

Definition Page_data (page : PageRef) : M (list byte) :=
  do pg <- get_page page; ret (data_ pg).

Definition Page_IsUnpinned (page : PageRef) : M bool :=
  do pg <- get_page page; ret (bool_decide (pin_count_ pg = 0)).

Definition Page_AddPin (page : PageRef) : M unit :=
  modify_page page (with_pin_count (fun n => wrap (n + 1))).

Definition Page_RemovePin (page : PageRef) : M unit :=
  modify_page page (with_pin_count (fun n => wrap (n - 1))).

(** [Page::UnassignFromStore].  The owner field is reset only when DCHECKs
    are compiled in, and then behind the four assertions of the function: the
    page is pinned, has an owner, is on its owner's list of pages
    ([transaction_list_node_] is linked) and on none of the pool's lists
    ([linked_list_node_] is not).  Without DCHECKs the function does
    nothing. *)
Definition Page_UnassignFromStore (page : PageRef) : M unit :=
  if DCHECK_IS_ON then
    do pg <- get_page page;
    do p <- get_pool;
    do registered <-
      match transaction_ pg with
      | Some owner =>
        do s <- get_store owner; ret (bool_decide (page ∈ pool_pages_ s))
      | None => ret false
      end;
    dcheck (bool_decide (pin_count_ pg <> 0))
      (dcheck (bool_decide (transaction_ pg <> None))
         (dcheck registered
            (dcheck (bool_decide (page ∉ free_list_ p ++ lru_list_ p ++ log_list_ p))
               (modify_page page (with_transaction None)))))
  else ret tt.

Definition Page_MarkDirty (page : PageRef) (will_be_dirty : bool) : M unit :=
  modify_page page (with_is_dirty will_be_dirty).

(** [std::memset(page->data(), value, count)]. *)
Definition Page_memset (page : PageRef) (value : byte) (count : Z) : M unit :=
  modify_page page
    (fun pg => with_data (replicate (Z.to_nat count) value
                            ++ drop (Z.to_nat count) (data_ pg)) pg).

(** Modelled from the spec: [Page::Create] (page.cc is not among the
    sources).  page.h documents that the returned page has one pin on it,
    owned by the caller; the entry is new, so it is unassigned, clean (the
    member initialiser of [is_dirty_]) and on no list.  The buffer of
    [page_size] bytes is zero-filled here; no property below depends on the
    fill. *)
Definition Page_Create : M PageRef :=
  do p <- get_pool;
  fun w =>
    (length (pages w),
     set_pages
       (fun l => l ++ [mkPage None 0 1 false (replicate (Z.to_nat (page_size_ p)) x00)])
       w).

(** ** store_impl.h: the store *)

Definition StoreImpl_PageAssigned (store : StoreRef) (page : PageRef) : M unit :=
  modify_store store (with_pool_pages (fun l => LinkedList_push_back l page)).

Definition StoreImpl_PageUnassigned (store : StoreRef) (page : PageRef) : M unit :=
  modify_store store (with_pool_pages (fun l => LinkedList_erase l page)).

Definition StoreImpl_IsClosed (store : StoreRef) : M bool :=
  do s <- get_store store; ret (bool_decide (state_ s = kClosed)).

(** Modelled from the spec: [StoreImpl::ReadPage] (store_impl.cc is not among
    the sources): read [page_size] bytes at offset [page_id * page_size] from
    the data file into [page.data()]; set dirty = false. *)
Definition StoreImpl_ReadPage (store : StoreRef) (page : PageRef) : M Status :=
  do p <- get_pool;
  do s <- get_store store;
  do page_id <- Page_page_id page;
  let offset := wrap (page_id * page_size_ p) in
  run log_io (IoRead store offset);
  let (status, bytes) := BlockAccessFile_Read (data_file_ s) offset (page_size_ p) in
  run (if decide (status = kSuccess)
       then modify_page page (with_data bytes) else ret tt);
  run modify_page page (with_is_dirty false);
  ret status.

(** Modelled from the spec: [StoreImpl::WritePage] (store_impl.cc is not
    among the sources): write [page_size] bytes from [page.data()] to offset
    [page_id * page_size] in the data file; the dirty flag is the caller's
    business. *)
Definition StoreImpl_WritePage (store : StoreRef) (page : PageRef) : M Status :=
  do p <- get_pool;
  do s <- get_store store;
  do page_id <- Page_page_id page;
  do bytes <- Page_data page;
  let offset := wrap (page_id * page_size_ p) in
  run log_io (IoWrite store offset bytes);
  let (status, file) := BlockAccessFile_Write (data_file_ s) bytes offset (page_size_ p) in
  run modify_store store (with_data_file (fun _ => file));
  ret status.

(** ** page_pool.cc *)

(** [PagePool::PagePool]. *)
Definition PagePool_new (page_shift page_capacity : Z) : PagePool :=
  mkPool ∅ page_shift (Z.shiftl 1 page_shift) page_capacity 0 [] [] [].

Definition allocated_pages (w : World) : Z := page_count_ (pool w).

Definition unused_pages (w : World) : Z := LinkedList_size (free_list_ (pool w)).

Definition pinned_pages (w : World) : Z :=
  wrap (wrap (page_count_ (pool w) - LinkedList_size (free_list_ (pool w)))
        - LinkedList_size (lru_list_ (pool w))).

Definition UnpinStorePage (page : PageRef) : M unit :=
  run Page_RemovePin page;
  do unpinned <- Page_IsUnpinned page;
  if unpinned
  then modify_pool (with_lru_list (fun l => LinkedList_push_back l page))
  else ret tt.

Definition UnpinUnassignedPage (page : PageRef) : M unit :=
  run Page_RemovePin page;
  do unpinned <- Page_IsUnpinned page;
  if unpinned
  then modify_pool (with_free_list (fun l => LinkedList_push_back l page))
  else ret tt.

(** [PagePool::UnassignPageFromStore], with the callee of [store->Close()]
    left open: [UnassignPageFromStore] and [StoreImpl::Close] call each
    other.  A page whose owner is null has no store to write to or to close
    (the DCHECK at the top of the function rules it out). *)
Definition UnassignPageFromStore_with (Close : StoreRef -> M Status)
    (page : PageRef) : M unit :=
  do dirty <- Page_is_dirty page;
  if dirty then
    do store <- Page_store page;
    do write_status <-
      match store with
      | Some s => StoreImpl_WritePage s page
      | None => ret kSuccess
      end;
    run Page_MarkDirty page false;
    run Page_UnassignFromStore page;
    if decide (write_status = kSuccess) then ret tt
    else
      match store with
      | Some s => do _ <- Close s; ret tt
      | None => ret tt
      end
  else Page_UnassignFromStore page.

(** [page_map_.erase(std::make_pair(store, page_id))]. *)
Definition page_map_erase (store : option StoreRef) (page_id : Z) : M unit :=
  match store with
  | Some s => modify_pool (with_page_map (delete (s, page_id)))
  | None => ret tt
  end.

(** Modelled from the spec: what [StoreImpl::Close] does to one entry of
    [pool_pages] (sections 2 and 4.3, scenario D).  The page leaves the LRU
    list and the identity map and is pinned, as a victim is in [AllocPage];
    it is unassigned through [PagePool::UnassignPageFromStore], which writes
    it back if it is dirty; it is taken off [pool_pages]; and it is returned
    to the free list through [PagePool::UnpinUnassignedPage], unless someone
    else still holds a pin on it. *)
Definition Close_page (Close : StoreRef -> M Status) (store : StoreRef)
    (page : PageRef) : M unit :=
  run modify_pool (with_lru_list (fun l => LinkedList_erase l page));
  do owner <- Page_store page;
  do page_id <- Page_page_id page;
  run page_map_erase owner page_id;
  run Page_AddPin page;
  run UnassignPageFromStore_with Close page;
  run StoreImpl_PageUnassigned store page;
  UnpinUnassignedPage page.

(** Modelled from the spec: [StoreImpl::Close] (store_impl.cc is not among
    the sources): transitions Open -> Closing; walks [pool_pages] and
    unassigns every entry, returning it to the free list ([Close_page]); sets
    Closed.  A write error during an unassignment calls [Close] again, which
    finds the store no longer open and does nothing.  [depth] bounds how
    many closes can be nested inside one another; each nested close that does
    anything takes one more store out of the Open state, so one more than the
    number of stores is always enough ([Close_at_enough] below). *)
Fixpoint Close_at (depth : nat) (store : StoreRef) : M Status :=
  match depth with
  | O => ret kSuccess
  | S depth' =>
    do s <- get_store store;
    if decide (state_ s = kOpen) then
      run modify_store store (with_state kClosing);
      run for_each (pool_pages_ s) (Close_page (Close_at depth') store);
      run modify_store store (with_state kClosed);
      ret kSuccess
    else ret kSuccess
  end.

(** Modelled from the spec: [StoreImpl::Close], as [Close_at] with a depth
    no cascade of closes can use up. *)
Definition StoreImpl_Close (store : StoreRef) : M Status :=
  fun w => Close_at (S (length (stores w))) store w.

Definition UnassignPageFromStore (page : PageRef) : M unit :=
  UnassignPageFromStore_with StoreImpl_Close page.

Definition AllocPage : M (option PageRef) :=
  do p <- get_pool;
  match free_list_ p with
  | page :: _ =>
    (* The free list is used as a stack (LIFO), says the source. *)
    run modify_pool (with_free_list LinkedList_pop_front);
    run Page_AddPin page;
    ret (Some page)
  | [] =>
    match lru_list_ p with
    | page :: _ =>
      run modify_pool (with_lru_list LinkedList_pop_front);
      do store <- Page_store page;
      do page_id <- Page_page_id page;
      run page_map_erase store page_id;
      run Page_AddPin page;
      run UnassignPageFromStore page;
      ret (Some page)
    | [] =>
      if bool_decide (page_count_ p < page_capacity_ p) then
        run modify_pool (with_page_count (fun n => wrap (n + 1)));
        do page <- Page_Create;
        ret (Some page)
      else ret None
    end
  end.

Definition FetchStorePage (page : PageRef) (fetch_mode : PageFetchMode) : M Status :=
  match fetch_mode with
  | kFetchPageData =>
    do store <- Page_store page;
    match store with
    | Some s => StoreImpl_ReadPage s page
    | None => ret kIoError (* no store to read from: ruled out by the DCHECK *)
    end
  | kIgnorePageData =>
    run Page_MarkDirty page true;
    do p <- get_pool;
    run (if DCHECK_IS_ON then Page_memset page xcd (page_size_ p) else ret tt);
    ret kSuccess
  end.

Definition AssignPageToStore (page : PageRef) (store : StoreRef) (page_id : Z)
    (fetch_mode : PageFetchMode) : M Status :=
  run Page_AssignToStore page store page_id;
  do fetch_status <- FetchStorePage page fetch_mode;
  if decide (fetch_status = kSuccess) then
    run modify_pool (with_page_map (<[(store, page_id) := page]>));
    ret kSuccess
  else
    run Page_UnassignFromStore page;
    run UnpinUnassignedPage page;
    ret fetch_status.

(** [*result] is written on the two successful paths only; the pair returned
    is the status and what the caller finds in [*result]. *)
Definition StorePage (store : StoreRef) (page_id : Z) (fetch_mode : PageFetchMode)
    : M (Status * option PageRef) :=
  do p <- get_pool;
  match page_map_ p !! (store, page_id) with
  | Some page => ret (kSuccess, Some page)
  | None =>
    do alloc <- AllocPage;
    match alloc with
    | None => ret (kPoolFull, None)
    | Some page =>
      do status <- AssignPageToStore page store page_id fetch_mode;
      if decide (status = kSuccess) then ret (status, Some page)
      else ret (status, None)
    end
  end.

(** ** The pool's clients *)

(** Modelled from the spec: [StoreImpl::Create] (store_impl.cc is not among
    the sources).  A store starts Open (the member initialiser of [state_])
    with no resident pages; creating it leaves the page pool alone. *)
Definition StoreImpl_Create (data_file : BlockAccessFile) : M StoreRef :=
  fun w =>
    (length (stores w), set_stores (fun l => l ++ [mkStore data_file [] kOpen]) w).

(** A caller that holds a page overwrites its buffer
    ([std::memcpy(page->data(), ...)] in the tests). *)
Definition Page_write (page : PageRef) (bytes : list byte) : M unit :=
  modify_page page (with_data bytes).

(** A pool as its constructor leaves it, with no page and no store yet. *)
Definition initial_world (page_shift page_capacity : Z) : World :=
  mkWorld (PagePool_new page_shift page_capacity) [] [] [] false.

(** The pin counts of the arena, in page order. *)
Definition pins (w : World) : list Z := pin_count_ <$> pages w.

(** The caller passes one of the pool's pages. *)
Definition pool_page (page : PageRef) (w : World) : Prop :=
  (page < length (pages w))%nat.

(** The page is on neither list of the pool: the list node of its control
    block is not linked. *)
Definition unlisted (page : PageRef) (w : World) : Prop :=
  page ∉ free_list_ (pool w) ++ lru_list_ (pool w).

(** If the call takes the last pin off the page, the page is not on a list
    yet: [push_back] links a node that is not linked, an intrusive list
    cannot hold a page twice. *)
Definition links_unlisted (page : PageRef) (w : World) : Prop :=
  wrap (pin_count_ (pages w !!! page) - 1) = 0 -> unlisted page w.

(** One call into the pool or into one of its stores.  The client passes
    pages of the pool, and the lists are used as intrusive lists can be.
    Whether a page that is unpinned carries a pin is not asked: page_pool.h
    tells the caller of [StorePage] to call [UnpinStorePage] when it is done
    with the page, and after a cache hit the caller that does so finds no pin
    of its own on the page.  [PinStorePage], [PinStorePages] and
    [UnpinAndWriteStorePage] are declared in page_pool.h and defined nowhere
    in page_pool.cc: no call to them is a step. *)
Inductive step : World -> World -> Prop :=
| step_Create data_file w :
    step w (snd (StoreImpl_Create data_file w))
| step_SetAccessError store access_error w :
    step w (snd (SetAccessError store access_error w))
| step_Close store w :
    step w (snd (StoreImpl_Close store w))
| step_Page_write page bytes w :
    step w (snd (Page_write page bytes w))
| step_MarkDirty page will_be_dirty w :
    step w (snd (Page_MarkDirty page will_be_dirty w))
| step_StorePage store page_id fetch_mode w :
    step w (snd (StorePage store page_id fetch_mode w))
| step_UnpinStorePage page w :
    pool_page page w -> links_unlisted page w ->
    step w (snd (UnpinStorePage page w))
| step_AllocPage w :
    step w (snd (AllocPage w))
| step_UnpinUnassignedPage page w :
    pool_page page w -> links_unlisted page w ->
    step w (snd (UnpinUnassignedPage page w))
| step_FetchStorePage page fetch_mode w :
    step w (snd (FetchStorePage page fetch_mode w))
| step_AssignPageToStore page store page_id fetch_mode w :
    pool_page page w -> unlisted page w ->
    step w (snd (AssignPageToStore page store page_id fetch_mode w))
| step_UnassignPageFromStore page w :
    step w (snd (UnassignPageFromStore page w)).

(** The states a pool of [page_capacity] pages can be in between two calls. *)
Inductive reachable : World -> Prop :=
| reachable_initial page_shift page_capacity :
    0 <= page_capacity < size_t_modulus ->
    reachable (initial_world page_shift page_capacity)
| reachable_step w w' :
    reachable w -> step w w' -> reachable w'.

End Operations.

(** ** Invariants *)

(** The pages on the two lists are pages of the pool, no page is listed
    twice, [page_count_] counts the entries of the arena, and the pool has not
    outgrown its capacity. *)
Record pool_inv (w : World) : Prop := mkPoolInv {
  inv_listed :
    forall page, page ∈ free_list_ (pool w) ++ lru_list_ (pool w) ->
                 pool_page page w;
  inv_nodup : NoDup (free_list_ (pool w) ++ lru_list_ (pool w));
  inv_arena : page_count_ (pool w) = Z.of_nat (length (pages w));
  inv_count : 0 <= page_count_ (pool w) <= page_capacity_ (pool w);
  inv_capacity : page_capacity_ (pool w) < size_t_modulus
}.

(** What a call that works on page contents and stores leaves alone. *)
Definition same_frame (w w' : World) : Prop :=
  pool w' = pool w /\ pins w' = pins w.

(** The number of stores that are still open. *)
Definition open_stores (w : World) : nat :=
  length (filter (fun s => state_ s = kOpen) (stores w)).

(** What writing back and unassigning do to a page: no page becomes dirty,
    no unassigned page gets an owner. *)
Definition page_settles (pg pg' : Page) : Prop :=
  (is_dirty_ pg = false -> is_dirty_ pg' = false) /\
  (transaction_ pg = None -> transaction_ pg' = None).

(** What they do to a store: its file keeps failing, or working, as before. *)
Definition store_settles (s s' : StoreImpl) : Prop :=
  access_error_ (data_file_ s') = access_error_ (data_file_ s).

(** What a call made while a store is written back or closed does to the
    world: pages and stores settle, none appears or disappears, and the I/O
    log grows at its end. *)
Record settles (w w' : World) : Prop := mkSettles {
  settles_pages : Forall2 page_settles (pages w) (pages w');
  settles_stores : Forall2 store_settles (stores w) (stores w');
  settles_log : exists later, io_log w' = io_log w ++ later
}.

(** No store is opened. *)
Definition calms (w w' : World) : Prop :=
  (open_stores w' <= open_stores w)%nat.

(** A call relates the world it finds to the world it leaves by [R]. *)
Definition keeps (R : relation World) {A : Type} (m : M A) : Prop :=
  forall w, R w (snd (m w)).

Abbreviation keeps_frame := (keeps same_frame).

(** The world in which [AllocPage] calls [UnassignPageFromStore] on the
    victim [page]: off the LRU list, out of the identity map, pinned. *)
Definition evict_pinned (page : PageRef) (w : World) : World :=
  let pg := pages w !!! page in
  set_pages (alter (with_pin_count (fun n => wrap (n + 1))) page)
    (match transaction_ pg with
     | Some s =>
       set_pool (with_page_map (delete (s, page_id_ pg)))
         (set_pool (with_lru_list LinkedList_pop_front) w)
     | None => set_pool (with_lru_list LinkedList_pop_front) w
     end).

(** The world [UnassignPageFromStore] has built when it decides whether to
    close the store: the dirty [page] written to [store], marked clean and
    unassigned. *)
Definition written_back {build : BuildConfig} (page : PageRef) (store : StoreRef)
    (w : World) : World :=
  snd (Page_UnassignFromStore page
         (snd (Page_MarkDirty page false (snd (StoreImpl_WritePage store page w))))).

(** What [Page::UnassignFromStore] asserts of the page when DCHECKs are
    compiled in. *)
Definition UnassignFromStore_asserts (page : PageRef) (w : World) : bool :=
  let pg := pages w !!! page in
  bool_decide (pin_count_ pg <> 0)
  && bool_decide (transaction_ pg <> None)
  && match transaction_ pg with
     | Some owner => bool_decide (page ∈ pool_pages_ (stores w !!! owner))
     | None => false
     end
  && bool_decide (page ∉ free_list_ (pool w) ++ lru_list_ (pool w)
                         ++ log_list_ (pool w)).

(** The byte offset of a page in its data file. *)
Definition page_offset (pg : Page) (w : World) : Z :=
  wrap (page_id_ pg * page_size_ (pool w)).

(** ** Test scenarios

    The sequences of calls the unit tests and the scenarios of the
    specification make, as programs of the same monad.  Pages and stores are
    numbered in the order they are created, from 0. *)

Definition healthy_file : BlockAccessFile := mkFile ∅ kSuccess.


(** Two [StorePage] calls for the same page of the same store, the second
    made while the first caller still holds its pin. *)
Definition repeated_StorePage {build : BuildConfig}
    : M ((Status * option PageRef) * (Status * option PageRef)) :=
  do store <- StoreImpl_Create healthy_file;
  do first <- StorePage store 0 kIgnorePageData;
  do second <- StorePage store 0 kFetchPageData;
  ret (first, second).

(** Scenario A: the caller unpins before it asks for the page again. *)
Definition cache_hit_after_unpin {build : BuildConfig}
    : M ((Status * option PageRef) * (Status * option PageRef)) :=
  do store <- StoreImpl_Create healthy_file;
  do first <- StorePage store 0 kIgnorePageData;
  run UnpinStorePage 0%nat;
  do second <- StorePage store 0 kFetchPageData;
  ret (first, second).

(** Two buffers are allocated, page 0 is freed, then page 1, and a buffer is
    asked for again. *)
Definition free_two_then_alloc {build : BuildConfig}
    : M (option PageRef * option PageRef * option PageRef) :=
  do first <- AllocPage;
  do second <- AllocPage;
  run UnpinUnassignedPage 0%nat;
  run UnpinUnassignedPage 1%nat;
  do third <- AllocPage;
  ret (first, second, third).

(** PagePoolTest.AllocUsesLruList, up to the assignment. *)
Definition alloc_and_assign {build : BuildConfig} : M (option PageRef * Status) :=
  do store <- StoreImpl_Create healthy_file;
  do page <- AllocPage;
  do status <- AssignPageToStore 0%nat store 0 kIgnorePageData;
  ret (page, status).

(** StoreImplTest.CloseUnassignsPages (scenario D): four pages are
    allocated, assigned to pages 0..3 of the store, marked clean and unpinned;
    then the store is closed. *)
Definition assign_clean_unpin {build : BuildConfig} (store : StoreRef)
    (page : PageRef) : M Status :=
  do status <- AssignPageToStore page store (Z.of_nat page) kIgnorePageData;
  run Page_MarkDirty page false;
  run UnpinStorePage page;
  ret status.

Definition close_after_four_pages {build : BuildConfig} : M (list Status * Status) :=
  do store <- StoreImpl_Create healthy_file;
  run AllocPage;
  run AllocPage;
  run AllocPage;
  run AllocPage;
  do s0 <- assign_clean_unpin store 0%nat;
  do s1 <- assign_clean_unpin store 1%nat;
  do s2 <- assign_clean_unpin store 2%nat;
  do s3 <- assign_clean_unpin store 3%nat;
  do closed <- StoreImpl_Close store;
  ret ([s0; s1; s2; s3], closed).

(** Scenario D as it would run if the pool registered the pages it assigns:
    each assignment is followed by the [PageAssigned] call that page.h asks
    of the caller of [Assign]. *)
Definition assign_register_unpin {build : BuildConfig} (store : StoreRef)
    (page : PageRef) : M Status :=
  do status <- AssignPageToStore page store (Z.of_nat page) kIgnorePageData;
  run StoreImpl_PageAssigned store page;
  run Page_MarkDirty page false;
  run UnpinStorePage page;
  ret status.

Definition close_after_four_pages_registered {build : BuildConfig}
    : M (list Status * Status) :=
  do store <- StoreImpl_Create healthy_file;
  run AllocPage;
  run AllocPage;
  run AllocPage;
  run AllocPage;
  do s0 <- assign_register_unpin store 0%nat;
  do s1 <- assign_register_unpin store 1%nat;
  do s2 <- assign_register_unpin store 2%nat;
  do s3 <- assign_register_unpin store 3%nat;
  do closed <- StoreImpl_Close store;
  ret ([s0; s1; s2; s3], closed).


(** Scenario C, up to the eviction: page 0 of the store is dirty in the only
    buffer, unpinned, and the file has started to fail. *)
Definition before_failing_writeback {build : BuildConfig} : M StoreRef :=
  do store <- StoreImpl_Create healthy_file;
  run StorePage store 0 kIgnorePageData;
  run UnpinStorePage 0%nat;
  run SetAccessError store kIoError;
  ret store.

(** PagePoolTest.UnassignFromStoreIoError, up to the unassignment: the dirty
    page is still pinned by the caller. *)
Definition before_failing_unassign {build : BuildConfig} : M StoreRef :=
  do store <- StoreImpl_Create healthy_file;
  run AllocPage;
  run AssignPageToStore 0%nat store 0 kIgnorePageData;
  run SetAccessError store kIoError;
  ret store.

(** Scenario C: the eviction whose writeback fails, on behalf of a
    [StorePage] for page 1 of the same store. *)
Definition evict_with_failing_writeback {build : BuildConfig}
    : M (Status * option PageRef) :=
  do store <- before_failing_writeback;
  StorePage store 1 kIgnorePageData.


(** PagePoolTest.UnassignFromStoreIoError: the unassignment whose writeback
    fails. *)
Definition failed_unassign {build : BuildConfig} : M unit :=
  run before_failing_unassign;
  UnassignPageFromStore 0%nat.

(** The bytes a caller writes into a page (one page of a pool with page
    shift 4). *)
Definition pattern_X : list byte := replicate 16 xa5.

(** Scenario B, up to the eviction: page 0 of the store is in the only
    buffer, overwritten by the caller, dirty and unpinned. *)
Definition before_eviction {build : BuildConfig} : M StoreRef :=
  do store <- StoreImpl_Create healthy_file;
  run StorePage store 0 kIgnorePageData;
  run Page_write 0%nat pattern_X;
  run Page_MarkDirty 0%nat true;
  run UnpinStorePage 0%nat;
  ret store.

(** The pairing page_pool.h prescribes, each [StorePage] followed by its
    [UnpinStorePage], with the second [StorePage] a cache hit. *)
Definition hit_then_unpin {build : BuildConfig}
    : M ((Status * option PageRef) * (Status * option PageRef)) :=
  do store <- StoreImpl_Create healthy_file;
  do first <- StorePage store 0 kIgnorePageData;
  run UnpinStorePage 0%nat;
  do second <- StorePage store 0 kFetchPageData;
  run UnpinStorePage 0%nat;
  ret (first, second).

(** One buffer allocated and given back. *)
Definition alloc_then_free {build : BuildConfig} : M unit :=
  run AllocPage;
  UnpinUnassignedPage 0%nat.

(** ** Accounting *)

(** The number of entries of the arena that are on neither list. *)
Definition unlisted_entries (w : World) : Z :=
  Z.of_nat
    (length (filter (fun page => page ∉ free_list_ (pool w) ++ lru_list_ (pool w))
               (seq 0 (length (pages w))))).

(** No store has a page on its [pool_pages] list. *)
Definition no_registered_pages (w : World) : Prop :=
  Forall (fun s => pool_pages_ s = []) (stores w).

(** What a call leaves alone when no store has a registered page, and so
    no [Close] finds a page to drain: the frame, and the stores' empty
    lists. *)
Definition quiet (w w' : World) : Prop :=
  no_registered_pages w -> same_frame w w' /\ no_registered_pages w'.

(** A call that adds no entry to the identity map. *)
Definition map_shrinks (w w' : World) : Prop :=
  forall key, page_map_ (pool w) !! key = None -> page_map_ (pool w') !! key = None.

(** The pool's configuration is what its constructor was given. *)
Definition same_configuration (w w' : World) : Prop :=
  page_shift_ (pool w') = page_shift_ (pool w) /\
  page_size_ (pool w') = page_size_ (pool w) /\
  page_capacity_ (pool w') = page_capacity_ (pool w).

(** What fetching a page's data leaves of its control block: the owner, the
    page ID and the pin count. *)
Definition keeps_identity (pg pg' : Page) : Prop :=
  transaction_ pg' = transaction_ pg /\
  page_id_ pg' = page_id_ pg /\
  pin_count_ pg' = pin_count_ pg.

(** A call that works on the buffer and the dirty flag of [page], and on
    nothing else but the I/O log. *)
Record touches_contents_of (page : PageRef) (w w' : World) : Prop := mkTouches {
  touches_pool : pool w' = pool w;
  touches_stores : stores w' = stores w;
  touches_others : forall q, q <> page -> pages w' !! q = pages w !! q;
  touches_page :
    forall pg, pages w !! page = Some pg ->
               exists pg', pages w' !! page = Some pg' /\ keeps_identity pg pg'
}.

(** A call that registers no page with a store that has none. *)
Definition registers_nothing (w w' : World) : Prop :=
  no_registered_pages w -> no_registered_pages w'.

(** A call that writes into no page buffer: every page that was there is
    still there, with the bytes it had. *)
Definition keeps_buffers (w w' : World) : Prop :=
  forall q pg, pages w !! q = Some pg ->
               exists pg', pages w' !! q = Some pg' /\ data_ pg' = data_ pg.

(** What the close cascade keeps in every world: settling, calm, the
    stores' empty lists, the page buffers, and the pairs missing from the
    identity map. *)
Definition cascade_relation (R : relation World) : Prop :=
  R = settles \/ R = calms \/ R = registers_nothing \/ R = keeps_buffers
  \/ R = map_shrinks.

(** * Proofs *)

(** ** Running the monad *)

Lemma bind_run {A B : Type} (m : M A) (k : A -> M B) (w : World) :
  bind m k w = k (fst (m w)) (snd (m w)).
Proof. unfold bind. destruct (m w); reflexivity. Qed.

Lemma snd_bind {A B : Type} (m : M A) (k : A -> M B) (w : World) :
  snd (bind m k w) = snd (k (fst (m w)) (snd (m w))).
Proof. rewrite bind_run; reflexivity. Qed.

Ltac run_monad :=
  unfold get_page, get_pool, get_store, modify_page, modify_pool,
    modify_store, log_io, ret;
  repeat (rewrite bind_run; cbn [fst snd]).

(** Runs the primitive steps in place and stops at the calls it is not told
    to unfold. *)
Ltac eval_monad :=
  unfold bind, ret, get_page, get_pool, get_store, modify_page, modify_pool,
    modify_store, log_io;
  cbn [fst snd].

(** ** Pin counts under page updates *)

Lemma pins_alter (f : Page -> Page) (g : Z -> Z) (page : PageRef) (l : list Page) :
  (forall pg, pin_count_ (f pg) = g (pin_count_ pg)) ->
  pin_count_ <$> alter f page l = alter g page (pin_count_ <$> l).
Proof.
  intros Hf. apply list_fmap_alter. apply Forall_forall. intros pg _. apply Hf.
Qed.

Lemma pins_alter_keep (f : Page -> Page) (page : PageRef) (l : list Page) :
  (forall pg, pin_count_ (f pg) = pin_count_ pg) ->
  pin_count_ <$> alter f page l = pin_count_ <$> l.
Proof.
  intros Hf. rewrite (pins_alter f (fun n => n)) by exact Hf.
  apply list_alter_id. reflexivity.
Qed.

(** ** What a call keeps *)

#[global] Instance same_frame_preorder : PreOrder same_frame.
Proof.
  split.
  - intros w. split; reflexivity.
  - intros w1 w2 w3 [P1 N1] [P2 N2]. split; congruence.
Qed.

#[global] Instance page_settles_preorder : PreOrder page_settles.
Proof.
  split.
  - intros pg. split; auto.
  - intros pg1 pg2 pg3 [D1 T1] [D2 T2]. split; auto.
Qed.

#[global] Instance store_settles_preorder : PreOrder store_settles.
Proof.
  split.
  - intros s. reflexivity.
  - intros s1 s2 s3. unfold store_settles. congruence.
Qed.

#[global] Instance settles_preorder : PreOrder settles.
Proof.
  split.
  - intros w. split; [reflexivity | reflexivity | exists []; by rewrite app_nil_r].
  - intros w1 w2 w3 [P1 S1 [l1 L1]] [P2 S2 [l2 L2]]. split.
    + by etrans.
    + by etrans.
    + exists (l1 ++ l2). by rewrite L2, L1, app_assoc.
Qed.

#[global] Instance calms_preorder : PreOrder calms.
Proof.
  split.
  - intros w. unfold calms. lia.
  - intros w1 w2 w3. unfold calms. lia.
Qed.

Lemma same_frame_trans (w1 w2 w3 : World) :
  same_frame w1 w2 -> same_frame w2 w3 -> same_frame w1 w3.
Proof. apply transitivity. Qed.

Section Keeps.

Context (R : relation World) `{!PreOrder R}.

Lemma keeps_ret {A : Type} (a : A) : keeps R (ret a).
Proof. intros w. reflexivity. Qed.

Lemma keeps_bind {A B : Type} (m : M A) (k : A -> M B) :
  keeps R m -> (forall a, keeps R (k a)) -> keeps R (bind m k).
Proof.
  intros Hm Hk w. rewrite snd_bind. etrans; [apply Hm | apply Hk].
Qed.

Lemma keeps_get_page (page : PageRef) : keeps R (get_page page).
Proof. intros w. reflexivity. Qed.

Lemma keeps_get_store (store : StoreRef) : keeps R (get_store store).
Proof. intros w. reflexivity. Qed.

Lemma keeps_get_pool : keeps R get_pool.
Proof. intros w. reflexivity. Qed.

Lemma keeps_for_each {A : Type} (l : list A) (f : A -> M unit) :
  (forall a, keeps R (f a)) -> keeps R (for_each l f).
Proof.
  intros Hf. induction l as [|a l IH]; cbn.
  - apply keeps_ret.
  - apply keeps_bind; [apply Hf | intros _; exact IH].
Qed.

End Keeps.

(** The frame: the pool object and the pin counts. *)

Lemma keeps_frame_modify_store (store : StoreRef) (f : StoreImpl -> StoreImpl) :
  keeps_frame (modify_store store f).
Proof. intros w. split; reflexivity. Qed.

Lemma keeps_frame_log_io (e : IoEvent) : keeps_frame (log_io e).
Proof. intros w. split; reflexivity. Qed.

Lemma keeps_frame_modify_page (page : PageRef) (f : Page -> Page) :
  (forall pg, pin_count_ (f pg) = pin_count_ pg) ->
  keeps_frame (modify_page page f).
Proof.
  intros Hf w. split; [reflexivity |].
  unfold pins, modify_page; cbn. apply pins_alter_keep, Hf.
Qed.

(** Settling. *)

Lemma keeps_settles_modify_store (store : StoreRef) (f : StoreImpl -> StoreImpl) :
  (forall s, store_settles s (f s)) ->
  keeps settles (modify_store store f).
Proof.
  intros Hf w. split; cbn.
  - reflexivity.
  - apply Forall2_alter_r; [reflexivity |].
    intros s s' _ _ Hs. etrans; [exact Hs | apply Hf].
  - exists []. by rewrite app_nil_r.
Qed.

Lemma keeps_settles_log_io (e : IoEvent) : keeps settles (log_io e).
Proof. intros w. split; cbn; [reflexivity | reflexivity | by exists [e]]. Qed.

Lemma keeps_settles_modify_page (page : PageRef) (f : Page -> Page) :
  (forall pg, page_settles pg (f pg)) ->
  keeps settles (modify_page page f).
Proof.
  intros Hf w. split; cbn.
  - apply Forall2_alter_r; [reflexivity |].
    intros pg pg' _ _ Hpg. etrans; [exact Hpg | apply Hf].
  - reflexivity.
  - exists []. by rewrite app_nil_r.
Qed.

(** Calm: the count of open stores. *)

Lemma open_count_alter (f : StoreImpl -> StoreImpl) (store : StoreRef)
    (l : list StoreImpl) :
  (forall s, state_ (f s) = kOpen -> state_ s = kOpen) ->
  (length (filter (fun s => state_ s = kOpen) (alter f store l))
   <= length (filter (fun s => state_ s = kOpen) l))%nat.
Proof.
  intros Hf. revert store.
  induction l as [|s l IH]; intros [|store]; cbn [alter list_alter];
    rewrite ?filter_cons; [lia.. | |].
  - destruct (decide (state_ (f s) = kOpen)) as [Hopen|Hno].
    + rewrite decide_True by (by apply Hf). cbn [length]. lia.
    + destruct (decide (state_ s = kOpen)); cbn [length]; lia.
  - specialize (IH store).
    destruct (decide (state_ s = kOpen)); cbn [length]; lia.
Qed.

Lemma open_count_alter_same (f : StoreImpl -> StoreImpl) (store : StoreRef)
    (l : list StoreImpl) :
  (forall s, state_ (f s) = state_ s) ->
  length (filter (fun s => state_ s = kOpen) (alter f store l))
  = length (filter (fun s => state_ s = kOpen) l).
Proof.
  intros Hf. revert store.
  induction l as [|s l IH]; intros [|store]; cbn [alter list_alter];
    rewrite ?filter_cons; [done.. | |].
  - rewrite Hf. by destruct (decide _).
  - destruct (decide _); cbn [length]; by rewrite (IH store).
Qed.

Lemma open_count_alter_closing (store : StoreRef) (l : list StoreImpl) :
  state_ (l !!! store) = kOpen ->
  S (length (filter (fun s => state_ s = kOpen) (alter (with_state kClosing) store l)))
  = length (filter (fun s => state_ s = kOpen) l).
Proof.
  revert store.
  induction l as [|s l IH]; intros [|store]; cbn [alter list_alter];
    rewrite ?filter_cons; [done.. | |].
  - intros Hopen. change (state_ s = kOpen) in Hopen.
    cbn [state_ with_state]. rewrite decide_False by discriminate.
    rewrite decide_True by exact Hopen. reflexivity.
  - intros Hopen. change (state_ (l !!! store) = kOpen) in Hopen.
    destruct (decide (state_ s = kOpen)); cbn [length];
      by rewrite <- (IH store Hopen).
Qed.

Lemma keeps_calms_modify_store (store : StoreRef) (f : StoreImpl -> StoreImpl) :
  (forall s, state_ (f s) = kOpen -> state_ s = kOpen) ->
  keeps calms (modify_store store f).
Proof. intros Hf w. by apply open_count_alter. Qed.

Lemma keeps_calms_log_io (e : IoEvent) : keeps calms (log_io e).
Proof. intros w. exact (le_n _). Qed.

Lemma keeps_calms_modify_page (page : PageRef) (f : Page -> Page) :
  keeps calms (modify_page page f).
Proof. intros w. exact (le_n _). Qed.


Lemma keeps_settles_modify_pool (f : PagePool -> PagePool) :
  keeps settles (modify_pool f).
Proof. intros w. split; cbn; [reflexivity | reflexivity | exists []; by rewrite app_nil_r]. Qed.

Lemma keeps_calms_modify_pool (f : PagePool -> PagePool) :
  keeps calms (modify_pool f).
Proof. intros w. exact (le_n _). Qed.

(** A failed assertion leaves everything but the mark as it is. *)

Lemma same_frame_mark (w : World) : same_frame w (mark_dcheck_failed w).
Proof. split; reflexivity. Qed.

Lemma settles_mark (w : World) : settles w (mark_dcheck_failed w).
Proof. split; cbn; [reflexivity | reflexivity | exists []; by rewrite app_nil_r]. Qed.

Lemma calms_mark (w : World) : calms w (mark_dcheck_failed w).
Proof. exact (le_n _). Qed.

Lemma keeps_dcheck (R : relation World) (condition : bool) (rest : M unit) :
  (forall w, R w (mark_dcheck_failed w)) ->
  keeps R rest -> keeps R (dcheck condition rest).
Proof. intros Hmark Hrest. unfold dcheck. destruct condition; [exact Hrest | exact Hmark]. Qed.

(** The stores' lists of assigned pages. *)

#[global] Instance registers_nothing_preorder : PreOrder registers_nothing.
Proof.
  split.
  - intros w Hw. exact Hw.
  - intros w1 w2 w3 H1 H2 Hw. apply H2, H1, Hw.
Qed.

Lemma registers_nothing_same_stores (w w' : World) :
  stores w' = stores w -> registers_nothing w w'.
Proof. unfold registers_nothing, no_registered_pages. by intros ->. Qed.

Lemma registers_nothing_modify_page (page : PageRef) (f : Page -> Page) :
  keeps registers_nothing (modify_page page f).
Proof. intros w. by apply registers_nothing_same_stores. Qed.

Lemma registers_nothing_modify_pool (f : PagePool -> PagePool) :
  keeps registers_nothing (modify_pool f).
Proof. intros w. by apply registers_nothing_same_stores. Qed.

Lemma registers_nothing_log_io (e : IoEvent) : keeps registers_nothing (log_io e).
Proof. intros w. by apply registers_nothing_same_stores. Qed.

Lemma registers_nothing_mark (w : World) : registers_nothing w (mark_dcheck_failed w).
Proof. by apply registers_nothing_same_stores. Qed.

Lemma registers_nothing_modify_store (store : StoreRef) (f : StoreImpl -> StoreImpl) :
  (forall s, pool_pages_ s = [] -> pool_pages_ (f s) = []) ->
  keeps registers_nothing (modify_store store f).
Proof.
  intros Hf w Hw. unfold no_registered_pages, modify_store in *. cbn.
  apply Forall_alter; [exact Hw |]. intros s _. apply Hf.
Qed.

(** Page buffers. *)

#[global] Instance keeps_buffers_preorder : PreOrder keeps_buffers.
Proof.
  split.
  - intros w q pg Hpg. by exists pg.
  - intros w1 w2 w3 H1 H2 q pg Hpg.
    destruct (H1 q pg Hpg) as (pg' & Hpg' & D1).
    destruct (H2 q pg' Hpg') as (pg'' & Hpg'' & D2).
    exists pg''. split; [exact Hpg'' | congruence].
Qed.

Lemma keeps_buffers_same_pages (w w' : World) :
  pages w' = pages w -> keeps_buffers w w'.
Proof. intros Hpages q pg Hpg. exists pg. by rewrite Hpages. Qed.

Lemma keeps_buffers_modify_page (page : PageRef) (f : Page -> Page) :
  (forall pg, data_ (f pg) = data_ pg) ->
  keeps keeps_buffers (modify_page page f).
Proof.
  intros Hf w q pg Hpg. unfold modify_page. cbn.
  destruct (decide (page = q)) as [->|Hne].
  - exists (f pg). by rewrite list_lookup_alter_eq, Hpg.
  - exists pg. by rewrite list_lookup_alter_ne.
Qed.

Lemma keeps_buffers_modify_pool (f : PagePool -> PagePool) :
  keeps keeps_buffers (modify_pool f).
Proof. intros w. by apply keeps_buffers_same_pages. Qed.

Lemma keeps_buffers_modify_store (store : StoreRef) (f : StoreImpl -> StoreImpl) :
  keeps keeps_buffers (modify_store store f).
Proof. intros w. by apply keeps_buffers_same_pages. Qed.

Lemma keeps_buffers_log_io (e : IoEvent) : keeps keeps_buffers (log_io e).
Proof. intros w. by apply keeps_buffers_same_pages. Qed.

Lemma keeps_buffers_mark (w : World) : keeps_buffers w (mark_dcheck_failed w).
Proof. by apply keeps_buffers_same_pages. Qed.

(** The identity map. *)

#[global] Instance map_shrinks_preorder : PreOrder map_shrinks.
Proof.
  split.
  - intros w key Hkey. exact Hkey.
  - intros w1 w2 w3 H1 H2 key Hkey. apply H2, H1, Hkey.
Qed.

Lemma map_shrinks_same_pool (w w' : World) :
  pool w' = pool w -> map_shrinks w w'.
Proof. intros Hpool key. by rewrite Hpool. Qed.

Lemma map_shrinks_modify_page (page : PageRef) (f : Page -> Page) :
  keeps map_shrinks (modify_page page f).
Proof. intros w. by apply map_shrinks_same_pool. Qed.

Lemma map_shrinks_modify_store (store : StoreRef) (f : StoreImpl -> StoreImpl) :
  keeps map_shrinks (modify_store store f).
Proof. intros w. by apply map_shrinks_same_pool. Qed.

Lemma map_shrinks_log_io (e : IoEvent) : keeps map_shrinks (log_io e).
Proof. intros w. by apply map_shrinks_same_pool. Qed.

Lemma map_shrinks_mark (w : World) : map_shrinks w (mark_dcheck_failed w).
Proof. by apply map_shrinks_same_pool. Qed.

Lemma map_shrinks_modify_pool (f : PagePool -> PagePool) :
  (forall p key, page_map_ p !! key = None -> page_map_ (f p) !! key = None) ->
  keeps map_shrinks (modify_pool f).
Proof. intros Hf w key. apply Hf. Qed.

(** The frame where no store has a registered page. *)

#[global] Instance quiet_preorder : PreOrder quiet.
Proof.
  split.
  - intros w Hw. split; [reflexivity | exact Hw].
  - intros w1 w2 w3 H1 H2 Hw. destruct (H1 Hw) as [F1 Hw2].
    destruct (H2 Hw2) as [F2 Hw3]. split; [by etrans | exact Hw3].
Qed.

Lemma quiet_frame (w w' : World) :
  same_frame w w' -> registers_nothing w w' -> quiet w w'.
Proof. intros Hframe Hreg Hw. split; [exact Hframe | by apply Hreg]. Qed.

Lemma quiet_modify_page (page : PageRef) (f : Page -> Page) :
  (forall pg, pin_count_ (f pg) = pin_count_ pg) ->
  keeps quiet (modify_page page f).
Proof.
  intros Hf w. apply quiet_frame;
    [by apply keeps_frame_modify_page | apply registers_nothing_modify_page].
Qed.

Lemma quiet_modify_store (store : StoreRef) (f : StoreImpl -> StoreImpl) :
  (forall s, pool_pages_ s = [] -> pool_pages_ (f s) = []) ->
  keeps quiet (modify_store store f).
Proof.
  intros Hf w. apply quiet_frame;
    [apply keeps_frame_modify_store | by apply registers_nothing_modify_store].
Qed.

Lemma quiet_log_io (e : IoEvent) : keeps quiet (log_io e).
Proof.
  intros w. apply quiet_frame; [apply keeps_frame_log_io | apply registers_nothing_log_io].
Qed.

Lemma quiet_mark (w : World) : quiet w (mark_dcheck_failed w).
Proof. apply quiet_frame; [apply same_frame_mark | apply registers_nothing_mark]. Qed.

(** What fetching touches. *)

#[global] Instance touches_contents_preorder (page : PageRef) :
  PreOrder (touches_contents_of page).
Proof.
  split.
  - intros w. split; [done | done | done |].
    intros pg Hpg. exists pg. by split.
  - intros w1 w2 w3 [P1 S1 O1 G1] [P2 S2 O2 G2]. split.
    + congruence.
    + congruence.
    + intros q Hq. by rewrite O2, O1.
    + intros pg Hpg. destruct (G1 pg Hpg) as (pg' & Hpg' & T1 & I1 & N1).
      destruct (G2 pg' Hpg') as (pg'' & Hpg'' & T2 & I2 & N2).
      exists pg''. split; [exact Hpg'' |]. split_and!; congruence.
Qed.

Lemma touches_contents_modify_page (page : PageRef) (f : Page -> Page) :
  (forall pg, keeps_identity pg (f pg)) ->
  keeps (touches_contents_of page) (modify_page page f).
Proof.
  intros Hf w. split; cbn.
  - reflexivity.
  - reflexivity.
  - intros q Hq. by apply list_lookup_alter_ne.
  - intros pg Hpg. exists (f pg). split; [| apply Hf].
    by rewrite list_lookup_alter_eq, Hpg.
Qed.

Lemma touches_contents_log_io (page : PageRef) (e : IoEvent) :
  keeps (touches_contents_of page) (log_io e).
Proof. intros w. split; cbn; [done | done | done |]. intros pg Hpg. exists pg. by split. Qed.

Create HintDb keeps discriminated.

#[export] Hint Resolve same_frame_preorder settles_preorder calms_preorder
  registers_nothing_preorder keeps_buffers_preorder map_shrinks_preorder
  quiet_preorder touches_contents_preorder
  keeps_ret keeps_get_page keeps_get_store keeps_get_pool
  keeps_frame_modify_store keeps_frame_log_io same_frame_mark
  keeps_settles_log_io keeps_settles_modify_pool settles_mark
  keeps_calms_log_io keeps_calms_modify_page keeps_calms_modify_pool calms_mark
  registers_nothing_modify_page registers_nothing_modify_pool
  registers_nothing_log_io registers_nothing_mark
  keeps_buffers_modify_pool keeps_buffers_modify_store keeps_buffers_log_io
  keeps_buffers_mark
  map_shrinks_modify_page map_shrinks_modify_store map_shrinks_log_io
  map_shrinks_mark
  quiet_log_io quiet_mark touches_contents_log_io : keeps.

(** Walks through a monadic program and discharges what each primitive is
    asked to keep. *)
Ltac keeps_step :=
  first
    [ apply keeps_bind; [typeclasses eauto | | intros ? ]
    | apply keeps_dcheck; [solve [ auto with keeps ] | ]
    | solve [ auto with keeps ]
    | apply keeps_frame_modify_page; intros ?; reflexivity
    | apply keeps_settles_modify_page; intros ?; split; cbn; solve [ auto ]
    | apply keeps_settles_modify_store; intros ?; reflexivity
    | apply keeps_calms_modify_store; intros ?; cbn; solve [ auto | discriminate ]
    | apply registers_nothing_modify_store; intros ? ?; cbn;
      solve [ auto | by match goal with H : pool_pages_ _ = [] |- _ => rewrite H end ]
    | apply keeps_buffers_modify_page; intros ?; reflexivity
    | apply map_shrinks_modify_pool; intros ? ? ?; cbn;
      solve [ auto | apply lookup_delete_None; by right ]
    | apply quiet_modify_page; intros ?; reflexivity
    | apply quiet_modify_store; intros ? ?; cbn;
      solve [ auto | by match goal with H : pool_pages_ _ = [] |- _ => rewrite H end ]
    | apply touches_contents_modify_page; intros ?; by split
    | match goal with
      | |- keeps _ (if ?c then _ else _) => destruct c
      | |- keeps _ (match ?o with Some _ => _ | None => _ end) => destruct o
      | |- keeps _ (match ?l with [] => _ | _ :: _ => _ end) => destruct l
      | |- keeps _ (let (_, _) := ?p in _) => destruct p
      end ].

Ltac frame := repeat keeps_step.

Section FrameLemmas.

Context {build : BuildConfig}.

Lemma keeps_frame_Page_MarkDirty page b : keeps_frame (Page_MarkDirty page b).
Proof. unfold Page_MarkDirty. frame. Qed.

Lemma keeps_frame_Page_UnassignFromStore page :
  keeps_frame (Page_UnassignFromStore page).
Proof. unfold Page_UnassignFromStore. frame. Qed.

Lemma keeps_frame_Page_memset page value count :
  keeps_frame (Page_memset page value count).
Proof. unfold Page_memset. frame. Qed.

Lemma keeps_frame_Page_write page bytes : keeps_frame (Page_write page bytes).
Proof. unfold Page_write. frame. Qed.

Lemma keeps_frame_ReadPage store page : keeps_frame (StoreImpl_ReadPage store page).
Proof. unfold StoreImpl_ReadPage, Page_page_id. frame. Qed.

Lemma keeps_frame_WritePage store page : keeps_frame (StoreImpl_WritePage store page).
Proof. unfold StoreImpl_WritePage, Page_page_id, Page_data. frame. Qed.

#[local] Hint Resolve keeps_frame_Page_MarkDirty keeps_frame_Page_UnassignFromStore
  keeps_frame_Page_memset keeps_frame_ReadPage : keeps.

Lemma keeps_frame_FetchStorePage page fetch_mode :
  keeps_frame (FetchStorePage page fetch_mode).
Proof.
  unfold FetchStorePage, Page_store. destruct fetch_mode; frame.
Qed.

Lemma keeps_frame_Create data_file : keeps_frame (StoreImpl_Create data_file).
Proof. intros w. split; reflexivity. Qed.

Lemma keeps_frame_SetAccessError store access_error :
  keeps_frame (SetAccessError store access_error).
Proof. unfold SetAccessError. frame. Qed.

Lemma keeps_frame_Page_AssignToStore page store page_id :
  keeps_frame (Page_AssignToStore page store page_id).
Proof. unfold Page_AssignToStore. frame. Qed.

Lemma touches_contents_FetchStorePage (page : PageRef) (fetch_mode : PageFetchMode) :
  keeps (touches_contents_of page) (FetchStorePage page fetch_mode).
Proof.
  unfold FetchStorePage, StoreImpl_ReadPage, Page_store, Page_page_id,
    Page_MarkDirty, Page_memset.
  destruct fetch_mode; frame.
Qed.

(** ** The close cascade *)

Lemma cascade_settles : cascade_relation settles.
Proof. by left. Qed.

Lemma cascade_calms : cascade_relation calms.
Proof. right; by left. Qed.

Lemma cascade_registers_nothing : cascade_relation registers_nothing.
Proof. right; right; by left. Qed.

Lemma cascade_keeps_buffers : cascade_relation keeps_buffers.
Proof. right; right; right; by left. Qed.

Lemma cascade_map_shrinks : cascade_relation map_shrinks.
Proof. right; right; right; by right. Qed.

Lemma cascade_preorder (R : relation World) : cascade_relation R -> PreOrder R.
Proof. intros [-> | [-> | [-> | [-> | ->]]]]; apply _. Qed.

Lemma keeps_settles_WritePage store page :
  keeps settles (StoreImpl_WritePage store page).
Proof.
  intros w. unfold StoreImpl_WritePage, Page_page_id, Page_data. eval_monad.
  destruct (BlockAccessFile_Write _ _ _ _) as [status file] eqn:Hwrite.
  assert (Herr : access_error_ file
                 = access_error_ (data_file_ (stores w !!! store))).
  { unfold BlockAccessFile_Write in Hwrite.
    destruct (decide _); by injection Hwrite as _ <-. }
  split; cbn.
  - reflexivity.
  - apply Forall2_alter_r; [reflexivity |].
    intros s s' _ Hs' ->. unfold store_settles. cbn.
    by rewrite Herr, (list_lookup_total_correct _ _ _ Hs').
  - by eexists.
Qed.

(** The calls the cascade is made of, one relation after the other. *)
Ltac cascade_calls :=
  unfold UnpinUnassignedPage;
  unfold Page_MarkDirty, Page_UnassignFromStore, Page_is_dirty, Page_store,
    Page_page_id, Page_data, Page_AddPin, Page_RemovePin, Page_IsUnpinned,
    StoreImpl_PageUnassigned, page_map_erase.

Lemma keeps_WritePage R store page :
  cascade_relation R -> keeps R (StoreImpl_WritePage store page).
Proof.
  intros [-> | [-> | [-> | [-> | ->]]]]; [apply keeps_settles_WritePage | ..];
    unfold StoreImpl_WritePage, Page_page_id, Page_data; frame.
Qed.

Lemma keeps_UnassignPageFromStore_with R Close page :
  cascade_relation R ->
  (forall s, keeps R (Close s)) ->
  keeps R (UnassignPageFromStore_with Close page).
Proof.
  intros HR HClose. pose proof (keeps_WritePage R) as HWrite.
  unfold UnassignPageFromStore_with.
  destruct HR as [-> | [-> | [-> | [-> | ->]]]]; cascade_calls;
    repeat first
      [ apply HClose
      | apply HWrite; solve [ apply cascade_settles | apply cascade_calms
                            | apply cascade_registers_nothing
                            | apply cascade_keeps_buffers | apply cascade_map_shrinks ]
      | keeps_step ].
Qed.

Lemma keeps_Close_page R Close store page :
  cascade_relation R ->
  (forall s, keeps R (Close s)) ->
  keeps R (Close_page Close store page).
Proof.
  intros HR HClose.
  pose proof (keeps_UnassignPageFromStore_with R Close page HR HClose) as HUnassign.
  unfold Close_page.
  destruct HR as [-> | [-> | [-> | [-> | ->]]]]; cascade_calls;
    repeat first [ apply HUnassign | keeps_step ].
Qed.

Lemma keeps_Close_at R depth store :
  cascade_relation R -> keeps R (Close_at depth store).
Proof.
  intros HR. pose proof (cascade_preorder R HR).
  revert store. induction depth as [|depth IH]; intros store; cbn [Close_at].
  - by apply keeps_ret.
  - apply keeps_bind; [exact _ | by apply keeps_get_store | intros s].
    destruct (decide _); [| by apply keeps_ret].
    assert (Hstate : forall st, st <> kOpen -> keeps R (modify_store store (with_state st))).
    { intros st Hst. destruct HR as [-> | [-> | [-> | [-> | ->]]]];
        first [ keeps_step | apply keeps_calms_modify_store; intros ? Heq; by destruct Hst ]. }
    repeat (apply keeps_bind; [exact _ | | intros ?]).
    + by apply Hstate.
    + apply keeps_for_each; [exact _ |]. intros page.
      by apply keeps_Close_page.
    + by apply Hstate.
    + by apply keeps_ret.
Qed.

Lemma keeps_Close R store : cascade_relation R -> keeps R (StoreImpl_Close store).
Proof. intros HR w. unfold StoreImpl_Close. by apply keeps_Close_at. Qed.

Lemma keeps_UnassignPageFromStore R page :
  cascade_relation R -> keeps R (UnassignPageFromStore page).
Proof.
  intros HR. apply keeps_UnassignPageFromStore_with; [exact HR |].
  intros s. by apply keeps_Close.
Qed.

(** ** Closing a store that has no registered page *)

Lemma no_registered_lookup (store : StoreRef) (w : World) :
  no_registered_pages w -> pool_pages_ (stores w !!! store) = [].
Proof.
  intros Hw. rewrite list_lookup_total_alt.
  destruct (stores w !! store) as [s|] eqn:Hs; [| reflexivity].
  unfold no_registered_pages in Hw. rewrite Forall_lookup in Hw. by apply (Hw store).
Qed.

(** [Close] then finds no page to drain and only changes the store's
    state. *)
Lemma Close_at_unregistered (depth : nat) (store : StoreRef) (w : World) :
  pool_pages_ (stores w !!! store) = [] ->
  Close_at depth store w
  = (kSuccess,
     if decide (depth <> O /\ state_ (stores w !!! store) = kOpen)
     then set_stores (alter (with_state kClosed) store) w
     else w).
Proof.
  intros Hnone. destruct depth as [|depth]; cbn [Close_at].
  - rewrite decide_False by (intros [H _]; by apply H). reflexivity.
  - run_monad. destruct (decide (state_ (stores w !!! store) = kOpen)) as [Hopen|Hno].
    + rewrite decide_True by (split; [discriminate | exact Hopen]).
      rewrite Hnone. run_monad. cbn [for_each]. run_monad.
      unfold set_stores. cbn. f_equal. f_equal.
      apply list_eq. intros i. destruct (decide (store = i)) as [<-|Hne].
      * rewrite !list_lookup_alter_eq. by destruct (stores w !! store).
      * by rewrite !list_lookup_alter_ne.
    + rewrite decide_False by (intros [_ H]; by apply Hno). reflexivity.
Qed.

Lemma quiet_Close (store : StoreRef) : keeps quiet (StoreImpl_Close store).
Proof.
  intros w Hw. unfold StoreImpl_Close.
  rewrite Close_at_unregistered by (by apply no_registered_lookup). cbn [snd].
  destruct (decide _); [| by split].
  apply (quiet_modify_store store (with_state kClosed)); [auto | exact Hw].
Qed.

Lemma quiet_WritePage store page : keeps quiet (StoreImpl_WritePage store page).
Proof. unfold StoreImpl_WritePage, Page_page_id, Page_data. frame. Qed.

Lemma quiet_UnassignPageFromStore (page : PageRef) :
  keeps quiet (UnassignPageFromStore page).
Proof.
  unfold UnassignPageFromStore, UnassignPageFromStore_with. cascade_calls.
  repeat first [ apply quiet_Close | apply quiet_WritePage | keeps_step ].
Qed.

(** In a world where no store has a registered page, [Close] and
    [UnassignPageFromStore] leave the pool and the pin counts alone. *)
Lemma unregistered_frame_Close (store : StoreRef) (w : World) :
  no_registered_pages w -> same_frame w (snd (StoreImpl_Close store w)).
Proof. intros Hw. by apply (quiet_Close store w). Qed.

Lemma unregistered_frame_UnassignPageFromStore (page : PageRef) (w : World) :
  no_registered_pages w -> same_frame w (snd (UnassignPageFromStore page w)).
Proof. intros Hw. by apply (quiet_UnassignPageFromStore page w). Qed.

End FrameLemmas.

Lemma pool_inv_frame (w w' : World) :
  same_frame w w' -> pool_inv w -> pool_inv w'.
Proof.
  intros [Hpool Hpins] [L N A C K].
  assert (Hlen : length (pages w') = length (pages w)).
  { apply (f_equal length) in Hpins. unfold pins in Hpins.
    by rewrite !length_fmap in Hpins. }
  split; unfold pool_page; rewrite ?Hpool, ?Hlen; assumption.
Qed.

(** ** What the pool's own calls do to the lists and the pin counts *)

Lemma pins_lookup (w : World) (page : PageRef) (n : Z) :
  pins w !! page = Some n <->
  exists pg, pages w !! page = Some pg /\ pin_count_ pg = n.
Proof.
  unfold pins. rewrite list_lookup_fmap_Some.
  split; intros (pg & H1 & H2); exists pg; by split.
Qed.

Lemma pins_lookup_total (w : World) (page : PageRef) (n : Z) :
  pins w !! page = Some n -> pin_count_ (pages w !!! page) = n.
Proof.
  intros (pg & Hpg & <-)%pins_lookup.
  by rewrite (list_lookup_total_correct _ _ _ Hpg).
Qed.

Lemma pins_length (w : World) : length (pins w) = length (pages w).
Proof. unfold pins. apply length_fmap. Qed.

Lemma pool_page_pins (page : PageRef) (w : World) :
  pool_page page w -> pins w !! page = Some (pin_count_ (pages w !!! page)).
Proof.
  intros Hpage. destruct (lookup_lt_is_Some_2 (pages w) page Hpage) as [pg Hpg].
  rewrite (list_lookup_total_correct _ _ _ Hpg). apply pins_lookup. by exists pg.
Qed.

Lemma wrap_small (z : Z) : 0 <= z < size_t_modulus -> wrap z = z.
Proof. intros Hz. unfold wrap. apply Z.mod_small, Hz. Qed.

(** A list without duplicates of pages of the pool is no longer than the
    arena. *)
Lemma listed_pages_bound (l : list nat) (n : nat) :
  NoDup l -> (forall page, page ∈ l -> (page < n)%nat) -> (length l <= n)%nat.
Proof.
  intros Hnodup Hbound.
  assert (Hsub : l ⊆+ seq 0 n).
  { apply NoDup_submseteq; [exact Hnodup |].
    intros page Hpage. apply elem_of_seq. specialize (Hbound page Hpage). lia. }
  apply submseteq_length in Hsub. by rewrite length_seq in Hsub.
Qed.

Lemma pool_inv_lists_bound (w : World) :
  pool_inv w ->
  LinkedList_size (free_list_ (pool w)) + LinkedList_size (lru_list_ (pool w))
  <= page_count_ (pool w).
Proof.
  intros [L N A C K]. rewrite A. unfold LinkedList_size.
  pose proof (listed_pages_bound _ _ N L) as Hbound.
  rewrite length_app in Hbound. lia.
Qed.

Section PoolLemmas.

Context {build : BuildConfig}.

Lemma RemovePin_run (page : PageRef) (w : World) :
  Page_RemovePin page w
  = (tt, set_pages (alter (with_pin_count (fun n => wrap (n - 1))) page) w).
Proof. reflexivity. Qed.

Lemma AddPin_run (page : PageRef) (w : World) :
  Page_AddPin page w
  = (tt, set_pages (alter (with_pin_count (fun n => wrap (n + 1))) page) w).
Proof. reflexivity. Qed.

Lemma pins_set_pin (g : Z -> Z) (page : PageRef) (w : World) :
  pins (set_pages (alter (with_pin_count g) page) w) = alter g page (pins w).
Proof. unfold pins; cbn. apply pins_alter. reflexivity. Qed.

Lemma UnpinStorePage_run (page : PageRef) (w : World) :
  let w1 := set_pages (alter (with_pin_count (fun n => wrap (n - 1))) page) w in
  UnpinStorePage page w
  = (tt, if bool_decide (pin_count_ (pages w1 !!! page) = 0)
         then set_pool (with_lru_list (fun l => l ++ [page])) w1
         else w1).
Proof.
  unfold UnpinStorePage, Page_IsUnpinned. run_monad. rewrite RemovePin_run.
  cbn [fst snd]. by destruct (bool_decide _).
Qed.

Lemma UnpinUnassignedPage_run (page : PageRef) (w : World) :
  let w1 := set_pages (alter (with_pin_count (fun n => wrap (n - 1))) page) w in
  UnpinUnassignedPage page w
  = (tt, if bool_decide (pin_count_ (pages w1 !!! page) = 0)
         then set_pool (with_free_list (fun l => l ++ [page])) w1
         else w1).
Proof.
  unfold UnpinUnassignedPage, Page_IsUnpinned. run_monad. rewrite RemovePin_run.
  cbn [fst snd]. by destruct (bool_decide _).
Qed.


(** Taking a pin off a page of the pool, and listing the page on the free
    list or on the LRU list if that was the last pin, keeps the invariant
    when the page is listed nowhere yet. *)
Lemma pool_inv_unpin (page : PageRef) (w : World) (to_free : bool) :
  let w1 := set_pages (alter (with_pin_count (fun n => wrap (n - 1))) page) w in
  let w2 := if to_free
            then set_pool (with_free_list (fun l => l ++ [page])) w1
            else set_pool (with_lru_list (fun l => l ++ [page])) w1 in
  pool_inv w -> pool_page page w ->
  (pin_count_ (pages w1 !!! page) = 0 -> unlisted page w) ->
  pool_inv (if bool_decide (pin_count_ (pages w1 !!! page) = 0) then w2 else w1).
Proof.
  intros w1 w2 Hinv Hpage Hlast.
  assert (Hlen1 : length (pages w1) = length (pages w))
    by (unfold w1; cbn; apply length_alter).
  assert (Hinv1 : pool_inv w1).
  { destruct Hinv as [L N A C K]. split; unfold pool_page; rewrite ?Hlen1; assumption. }
  case_bool_decide as Hzero; [| exact Hinv1].
  specialize (Hlast Hzero). unfold unlisted in Hlast.
  destruct Hinv as [L N A C K].
  assert (Hlen2 : length (pages w2) = length (pages w))
    by (unfold w2; destruct to_free; exact Hlen1).
  assert (Hin2 : forall q, q ∈ free_list_ (pool w2) ++ lru_list_ (pool w2) <->
                           q = page \/ q ∈ free_list_ (pool w) ++ lru_list_ (pool w)).
  { intros q. unfold w2; destruct to_free; cbn;
      rewrite !elem_of_app, ?list_elem_of_singleton; tauto. }
  split.
  - intros q [-> | Hq]%Hin2; unfold pool_page; rewrite Hlen2; [exact Hpage | by apply L].
  - unfold w2; destruct to_free; cbn.
    + rewrite <- app_assoc. cbn.
      apply NoDup_app in N as (Nf & Nd & Nl).
      apply NoDup_app. split_and!; [done | | ].
      * intros q Hq [-> | Hq']%elem_of_cons; [| by eapply Nd].
        apply Hlast, elem_of_app; by left.
      * apply NoDup_cons. split; [| done].
        intros Hq. apply Hlast, elem_of_app; by right.
    + rewrite app_assoc. apply NoDup_app. split_and!; [done | | apply NoDup_singleton].
      intros q Hq ->%list_elem_of_singleton. by apply Hlast.
  - rewrite Hlen2. unfold w2; by destruct to_free.
  - unfold w2; by destruct to_free.
  - unfold w2; by destruct to_free.
Qed.

Lemma unpinned_count (page : PageRef) (w : World) :
  pool_page page w ->
  pin_count_ (pages (set_pages (alter (with_pin_count (fun n => wrap (n - 1))) page) w)
              !!! page)
  = wrap (pin_count_ (pages w !!! page) - 1).
Proof.
  intros Hpage. cbn. by rewrite list_lookup_total_alter_eq.
Qed.

Lemma pool_inv_UnpinStorePage (page : PageRef) (w : World) :
  pool_inv w -> pool_page page w -> links_unlisted page w ->
  pool_inv (snd (UnpinStorePage page w)).
Proof.
  intros Hinv Hpage Hlinks. rewrite UnpinStorePage_run. cbn [snd].
  apply (pool_inv_unpin page w false Hinv Hpage).
  rewrite unpinned_count by exact Hpage. exact Hlinks.
Qed.

Lemma pool_inv_UnpinUnassignedPage (page : PageRef) (w : World) :
  pool_inv w -> pool_page page w -> links_unlisted page w ->
  pool_inv (snd (UnpinUnassignedPage page w)).
Proof.
  intros Hinv Hpage Hlinks. rewrite UnpinUnassignedPage_run. cbn [snd].
  apply (pool_inv_unpin page w true Hinv Hpage).
  rewrite unpinned_count by exact Hpage. exact Hlinks.
Qed.

(** A page on neither list is listed after no unpin it could not be listed
    by. *)
Lemma unlisted_links (page : PageRef) (w : World) :
  unlisted page w -> links_unlisted page w.
Proof. by intros Hpage _. Qed.

Lemma AllocPage_free (page : PageRef) (rest : list PageRef) (w : World) :
  free_list_ (pool w) = page :: rest ->
  AllocPage w
  = (Some page,
     set_pages (alter (with_pin_count (fun n => wrap (n + 1))) page)
       (set_pool (with_free_list LinkedList_pop_front) w)).
Proof.
  intros Hfree. unfold AllocPage. run_monad. rewrite Hfree. run_monad.
  reflexivity.
Qed.

Lemma AllocPage_lru (page : PageRef) (rest : list PageRef) (w : World) :
  free_list_ (pool w) = [] ->
  lru_list_ (pool w) = page :: rest ->
  AllocPage w = (Some page, snd (UnassignPageFromStore page (evict_pinned page w))).
Proof.
  intros Hfree Hlru. unfold AllocPage. run_monad. rewrite Hfree, Hlru.
  unfold Page_store, Page_page_id, page_map_erase, evict_pinned. run_monad.
  destruct (transaction_ _); run_monad; rewrite AddPin_run; reflexivity.
Qed.

Lemma AllocPage_grow (w : World) :
  free_list_ (pool w) = [] ->
  lru_list_ (pool w) = [] ->
  page_count_ (pool w) < page_capacity_ (pool w) ->
  AllocPage w
  = (Some (length (pages w)),
     set_pages
       (fun l => l ++ [mkPage None 0 1 false
                         (replicate (Z.to_nat (page_size_ (pool w))) x00)])
       (set_pool (with_page_count (fun n => wrap (n + 1))) w)).
Proof.
  intros Hfree Hlru Hroom. unfold AllocPage. run_monad. rewrite Hfree, Hlru.
  rewrite bool_decide_eq_true_2 by exact Hroom.
  unfold Page_Create. run_monad. reflexivity.
Qed.

Lemma AllocPage_full (w : World) :
  free_list_ (pool w) = [] ->
  lru_list_ (pool w) = [] ->
  ~ page_count_ (pool w) < page_capacity_ (pool w) ->
  AllocPage w = (None, w).
Proof.
  intros Hfree Hlru Hfull. unfold AllocPage. run_monad. rewrite Hfree, Hlru.
  rewrite bool_decide_eq_false_2 by exact Hfull. reflexivity.
Qed.


Lemma evict_pinned_page (victim : PageRef) (pg : Page) (w : World) :
  pages w !! victim = Some pg ->
  pages (evict_pinned victim w) !! victim
  = Some (with_pin_count (fun n => wrap (n + 1)) pg).
Proof.
  intros Hpg. unfold evict_pinned.
  destruct (transaction_ _); cbn; by rewrite list_lookup_alter_eq, Hpg.
Qed.

Lemma evict_pinned_rest (victim : PageRef) (w : World) :
  stores (evict_pinned victim w) = stores w /\
  io_log (evict_pinned victim w) = io_log w /\
  page_size_ (pool (evict_pinned victim w)) = page_size_ (pool w) /\
  free_list_ (pool (evict_pinned victim w)) = free_list_ (pool w) /\
  lru_list_ (pool (evict_pinned victim w)) = tail (lru_list_ (pool w)).
Proof. unfold evict_pinned. by destruct (transaction_ _). Qed.

Lemma evict_pinned_unregistered (victim : PageRef) (w : World) :
  no_registered_pages w -> no_registered_pages (evict_pinned victim w).
Proof.
  unfold no_registered_pages. by destruct (evict_pinned_rest victim w) as [-> _].
Qed.

(** The frame of the eviction: what [AllocPage] leaves of the pool and of
    the pin counts when it recycles the head of the LRU list. *)
Lemma AllocPage_lru_frame (page : PageRef) (rest : list PageRef) (w : World) :
  no_registered_pages w ->
  free_list_ (pool w) = [] ->
  lru_list_ (pool w) = page :: rest ->
  fst (AllocPage w) = Some page /\
  pool (snd (AllocPage w)) = pool (evict_pinned page w) /\
  pins (snd (AllocPage w)) = alter (fun n => wrap (n + 1)) page (pins w).
Proof.
  intros Hw Hfree Hlru. rewrite (AllocPage_lru page rest w Hfree Hlru). cbn [fst snd].
  destruct (unregistered_frame_UnassignPageFromStore page (evict_pinned page w))
    as [Hpool Hpins]; [by apply evict_pinned_unregistered |].
  split_and!; [reflexivity | exact Hpool |].
  rewrite Hpins. unfold evict_pinned. rewrite pins_set_pin. by destruct (transaction_ _).
Qed.

(** Taking the head off a list and pinning it keeps the invariant, and the
    page taken is a page of the pool that is on neither list afterwards. *)
Lemma pool_inv_pin_listed (page : PageRef) (w w' : World) :
  pool_inv w ->
  length (pages w') = length (pages w) ->
  page_count_ (pool w') = page_count_ (pool w) ->
  page_capacity_ (pool w') = page_capacity_ (pool w) ->
  page :: free_list_ (pool w') ++ lru_list_ (pool w')
  = free_list_ (pool w) ++ lru_list_ (pool w) ->
  pool_inv w' /\ pool_page page w' /\ unlisted page w'.
Proof.
  intros [L N A C K] Hlen Hcount Hcap Hlists.
  rewrite <- Hlists in L, N. apply NoDup_cons in N as [Hnotin N].
  split; [split | split].
  - intros q Hq. unfold pool_page. rewrite Hlen. apply L. by right.
  - exact N.
  - by rewrite Hcount, Hlen.
  - by rewrite Hcount, Hcap.
  - by rewrite Hcap.
  - unfold pool_page. rewrite Hlen. apply L. left.
  - exact Hnotin.
Qed.

Lemma AllocPage_inv (w : World) :
  no_registered_pages w -> pool_inv w ->
  pool_inv (snd (AllocPage w)) /\
  forall page, fst (AllocPage w) = Some page ->
               pool_page page (snd (AllocPage w)) /\
               unlisted page (snd (AllocPage w)) /\
               pins (snd (AllocPage w)) !! page
               = Some (wrap (default 0 (pins w !! page) + 1)).
Proof.
  intros Hw Hinv.
  assert (Hpinned : forall page w',
            pool_page page w ->
            pins w' = alter (fun n => wrap (n + 1)) page (pins w) ->
            pins w' !! page = Some (wrap (default 0 (pins w !! page) + 1))).
  { intros page w' Hpage ->. rewrite list_lookup_alter_eq.
    by rewrite (pool_page_pins page w Hpage). }
  destruct (free_list_ (pool w)) as [|page rest] eqn:Hfree.
  - destruct (lru_list_ (pool w)) as [|page rest] eqn:Hlru.
    + destruct (decide (page_count_ (pool w) < page_capacity_ (pool w))) as [Hroom|Hfull].
      * rewrite (AllocPage_grow w Hfree Hlru Hroom). cbn [fst snd].
        destruct Hinv as [L N A C K]. split; [split |].
        -- intros q. cbn. rewrite Hfree, Hlru. by intros ?%elem_of_nil.
        -- cbn. rewrite Hfree, Hlru. apply NoDup_nil_2.
        -- cbn. rewrite length_app. cbn. rewrite wrap_small; lia.
        -- cbn. rewrite wrap_small; lia.
        -- exact K.
        -- intros page [= <-]. split_and!.
           ++ unfold pool_page. cbn. rewrite length_app. cbn. lia.
           ++ unfold unlisted. cbn. rewrite Hfree, Hlru. apply not_elem_of_nil.
           ++ unfold pins at 1; cbn. rewrite fmap_app. cbn.
              rewrite (lookup_ge_None_2 (pins w)) by (rewrite pins_length; lia).
              apply list_lookup_middle. by rewrite length_fmap.
      * rewrite (AllocPage_full w Hfree Hlru Hfull). cbn [fst snd].
        split; [exact Hinv | discriminate].
    + destruct (AllocPage_lru_frame page rest w Hw Hfree Hlru) as (Hpage & Hpool & Hpins).
      assert (Hlen : length (pages (snd (AllocPage w))) = length (pages w)).
      { rewrite <- !pins_length, Hpins. apply length_alter. }
      destruct (pool_inv_pin_listed page w (snd (AllocPage w)) Hinv Hlen)
        as (Hinv' & Hin & Hout).
      * rewrite Hpool. unfold evict_pinned. by destruct (transaction_ _).
      * rewrite Hpool. unfold evict_pinned. by destruct (transaction_ _).
      * rewrite Hpool. destruct (evict_pinned_rest page w) as (_ & _ & _ & -> & ->).
        by rewrite Hfree, Hlru.
      * split; [exact Hinv' |]. rewrite Hpage. intros ? [= <-].
        split_and!; [exact Hin | exact Hout |].
        apply Hpinned; [| exact Hpins].
        unfold pool_page in *. by rewrite Hlen in Hin.
  - rewrite (AllocPage_free page rest w Hfree). cbn [fst snd].
    set (w' := set_pages _ _).
    assert (Hlen : length (pages w') = length (pages w))
      by (unfold w'; cbn; apply length_alter).
    destruct (pool_inv_pin_listed page w w' Hinv Hlen) as (Hinv' & Hin & Hout);
      [reflexivity | reflexivity | by (cbn; rewrite Hfree) |].
    split; [exact Hinv' |]. intros ? [= <-].
    split_and!; [exact Hin | exact Hout |].
    apply Hpinned; [| unfold w'; by rewrite pins_set_pin].
    unfold pool_page in *. by rewrite Hlen in Hin.
Qed.

Lemma AssignPageToStore_run (page : PageRef) (store : StoreRef) (page_id : Z)
    (fetch_mode : PageFetchMode) (w : World) :
  let r := FetchStorePage page fetch_mode
             (snd (Page_AssignToStore page store page_id w)) in
  AssignPageToStore page store page_id fetch_mode w
  = if decide (fst r = kSuccess)
    then (kSuccess, set_pool (with_page_map (<[(store, page_id) := page]>)) (snd r))
    else (fst r, snd (UnpinUnassignedPage page (snd (Page_UnassignFromStore page (snd r))))).
Proof.
  intros r. unfold AssignPageToStore. rewrite !bind_run. fold r.
  destruct (decide (fst r = kSuccess)); run_monad; reflexivity.
Qed.

Lemma pool_page_frame (page : PageRef) (w w' : World) :
  same_frame w w' -> pool_page page w -> pool_page page w'.
Proof.
  intros [_ Hpins]. unfold pool_page. by rewrite <- !pins_length, Hpins.
Qed.

Lemma unlisted_frame (page : PageRef) (w w' : World) :
  same_frame w w' -> unlisted page w -> unlisted page w'.
Proof. intros [Hpool _]. unfold unlisted. by rewrite Hpool. Qed.

Lemma AssignPageToStore_frame (page : PageRef) (store : StoreRef) (page_id : Z)
    (fetch_mode : PageFetchMode) (w : World) :
  same_frame w (snd (FetchStorePage page fetch_mode
                       (snd (Page_AssignToStore page store page_id w)))).
Proof.
  eapply same_frame_trans;
    [apply keeps_frame_Page_AssignToStore | apply keeps_frame_FetchStorePage].
Qed.

Lemma pool_inv_AssignPageToStore (page : PageRef) (store : StoreRef) (page_id : Z)
    (fetch_mode : PageFetchMode) (w : World) :
  pool_inv w -> pool_page page w -> unlisted page w ->
  pool_inv (snd (AssignPageToStore page store page_id fetch_mode w)).
Proof.
  intros Hinv Hpage Hout. rewrite AssignPageToStore_run.
  set (w1 := snd (Page_AssignToStore page store page_id w)).
  set (r := FetchStorePage page fetch_mode w1).
  pose proof (AssignPageToStore_frame page store page_id fetch_mode w) as Hframe.
  fold w1 r in Hframe.
  pose proof (pool_inv_frame _ _ Hframe Hinv) as Hinv1.
  destruct (decide (fst r = kSuccess)); cbn [snd].
  - destruct Hinv1 as [L N A C K]. by split.
  - assert (Hframe2 : same_frame w (snd (Page_UnassignFromStore page (snd r)))).
    { eapply same_frame_trans; [exact Hframe | apply keeps_frame_Page_UnassignFromStore]. }
    apply pool_inv_UnpinUnassignedPage.
    + by eapply pool_inv_frame.
    + by eapply pool_page_frame.
    + apply unlisted_links. by eapply unlisted_frame.
Qed.

Lemma StorePage_hit (store : StoreRef) (page_id : Z) (fetch_mode : PageFetchMode)
    (page : PageRef) (w : World) :
  page_map_ (pool w) !! (store, page_id) = Some page ->
  StorePage store page_id fetch_mode w = ((kSuccess, Some page), w).
Proof.
  intros Hhit. unfold StorePage. run_monad. rewrite Hhit. reflexivity.
Qed.

Lemma StorePage_miss (store : StoreRef) (page_id : Z) (fetch_mode : PageFetchMode)
    (w : World) :
  page_map_ (pool w) !! (store, page_id) = None ->
  StorePage store page_id fetch_mode w
  = match fst (AllocPage w) with
    | None => ((kPoolFull, None), snd (AllocPage w))
    | Some page =>
      let r := AssignPageToStore page store page_id fetch_mode (snd (AllocPage w)) in
      ((fst r, if decide (fst r = kSuccess) then Some page else None), snd r)
    end.
Proof.
  intros Hmiss. unfold StorePage. run_monad. rewrite Hmiss. run_monad.
  destruct (fst (AllocPage w)) as [page|]; [| reflexivity].
  run_monad. by destruct (decide _).
Qed.

Lemma pool_inv_StorePage (store : StoreRef) (page_id : Z) (fetch_mode : PageFetchMode)
    (w : World) :
  no_registered_pages w -> pool_inv w ->
  pool_inv (snd (StorePage store page_id fetch_mode w)).
Proof.
  intros Hw Hinv.
  destruct (page_map_ (pool w) !! (store, page_id)) as [page|] eqn:Hmap.
  - by rewrite (StorePage_hit _ _ _ _ _ Hmap).
  - rewrite (StorePage_miss _ _ _ _ Hmap).
    destruct (AllocPage_inv w Hw Hinv) as [Hinv1 Hpage].
    destruct (fst (AllocPage w)) as [page|]; [| exact Hinv1].
    cbn [snd]. destruct (Hpage page eq_refl) as (Hin & Hout & _).
    by apply pool_inv_AssignPageToStore.
Qed.

Lemma pool_inv_initial (page_shift page_capacity : Z) :
  0 <= page_capacity < size_t_modulus ->
  pool_inv (initial_world page_shift page_capacity).
Proof.
  intros Hcap. split; cbn.
  - by intros page ?%elem_of_nil.
  - apply NoDup_nil_2.
  - reflexivity.
  - lia.
  - lia.
Qed.

Lemma pool_inv_step (w w' : World) :
  step w w' -> no_registered_pages w -> pool_inv w -> pool_inv w'.
Proof.
  intros Hstep Hw Hinv. destruct Hstep.
  - eapply pool_inv_frame; [apply keeps_frame_Create | done].
  - eapply pool_inv_frame; [apply keeps_frame_SetAccessError | done].
  - eapply pool_inv_frame; [by apply unregistered_frame_Close | done].
  - eapply pool_inv_frame; [apply keeps_frame_Page_write | done].
  - eapply pool_inv_frame; [apply keeps_frame_Page_MarkDirty | done].
  - by apply pool_inv_StorePage.
  - by apply pool_inv_UnpinStorePage.
  - by apply AllocPage_inv.
  - by apply pool_inv_UnpinUnassignedPage.
  - eapply pool_inv_frame; [apply keeps_frame_FetchStorePage | done].
  - by apply pool_inv_AssignPageToStore.
  - eapply pool_inv_frame; [by apply unregistered_frame_UnassignPageFromStore | done].
Qed.

(** ** No page is ever registered with a store *)

Lemma registers_nothing_Page_Create : keeps registers_nothing Page_Create.
Proof. intros w. by apply registers_nothing_same_stores. Qed.

Lemma registers_nothing_AllocPage : keeps registers_nothing AllocPage.
Proof.
  unfold AllocPage, Page_AddPin, Page_store, Page_page_id, page_map_erase.
  repeat first
    [ apply keeps_UnassignPageFromStore, cascade_registers_nothing
    | apply registers_nothing_Page_Create
    | keeps_step ].
Qed.

Lemma registers_nothing_Unpin (page : PageRef) :
  keeps registers_nothing (UnpinStorePage page) /\
  keeps registers_nothing (UnpinUnassignedPage page).
Proof.
  unfold UnpinStorePage, UnpinUnassignedPage, Page_RemovePin, Page_IsUnpinned.
  split; frame.
Qed.

Lemma registers_nothing_FetchStorePage (page : PageRef) (fetch_mode : PageFetchMode) :
  keeps registers_nothing (FetchStorePage page fetch_mode).
Proof.
  intros w. apply registers_nothing_same_stores.
  apply (touches_stores _ _ _ (touches_contents_FetchStorePage page fetch_mode w)).
Qed.

Lemma registers_nothing_AssignPageToStore (page : PageRef) (store : StoreRef)
    (page_id : Z) (fetch_mode : PageFetchMode) :
  keeps registers_nothing (AssignPageToStore page store page_id fetch_mode).
Proof.
  unfold AssignPageToStore, Page_AssignToStore, Page_UnassignFromStore.
  repeat first
    [ apply registers_nothing_FetchStorePage
    | apply (proj2 (registers_nothing_Unpin page))
    | keeps_step ].
Qed.

Lemma registers_nothing_StorePage (store : StoreRef) (page_id : Z)
    (fetch_mode : PageFetchMode) :
  keeps registers_nothing (StorePage store page_id fetch_mode).
Proof.
  unfold StorePage.
  repeat first
    [ apply registers_nothing_AllocPage
    | apply registers_nothing_AssignPageToStore
    | keeps_step ].
Qed.

Lemma registers_nothing_step (w w' : World) : step w w' -> registers_nothing w w'.
Proof.
  intros Hstep. destruct Hstep.
  - intros Hw. unfold no_registered_pages, StoreImpl_Create in *. cbn.
    apply Forall_app. split; [exact Hw | by apply Forall_singleton].
  - unfold SetAccessError. apply registers_nothing_modify_store. auto.
  - apply keeps_Close, cascade_registers_nothing.
  - by apply registers_nothing_same_stores.
  - by apply registers_nothing_same_stores.
  - apply registers_nothing_StorePage.
  - apply (proj1 (registers_nothing_Unpin page)).
  - apply registers_nothing_AllocPage.
  - apply (proj2 (registers_nothing_Unpin page)).
  - apply registers_nothing_FetchStorePage.
  - apply registers_nothing_AssignPageToStore.
  - apply keeps_UnassignPageFromStore, cascade_registers_nothing.
Qed.

Lemma reachable_no_registered_pages (w : World) :
  reachable w -> no_registered_pages w.
Proof.
  induction 1 as [page_shift page_capacity Hcap | w w' Hreach IH Hstep].
  - apply Forall_nil_2.
  - by apply (registers_nothing_step w w').
Qed.

Lemma reachable_pool_inv (w : World) : reachable w -> pool_inv w.
Proof.
  induction 1 as [page_shift page_capacity Hcap | w w' Hreach IH Hstep].
  - by apply pool_inv_initial.
  - eapply pool_inv_step; [exact Hstep | by apply reachable_no_registered_pages | exact IH].
Qed.

End PoolLemmas.

(** ** Writing back and unassigning *)

Section Writeback.

Context {build : BuildConfig}.

Lemma WritePage_run (store : StoreRef) (page : PageRef) (w : World) :
  let pg := pages w !!! page in
  let r := BlockAccessFile_Write (data_file_ (stores w !!! store)) (data_ pg)
             (page_offset pg w) (page_size_ (pool w)) in
  StoreImpl_WritePage store page w
  = (fst r,
     set_stores (alter (with_data_file (fun _ => snd r)) store)
       (set_io_log (fun l => l ++ [IoWrite store (page_offset pg w) (data_ pg)]) w)).
Proof.
  intros pg r. unfold StoreImpl_WritePage, Page_page_id, Page_data. run_monad.
  fold pg. unfold page_offset in r. fold r. destruct r as [status file].
  run_monad. reflexivity.
Qed.

Lemma WritePage_status (store : StoreRef) (page : PageRef) (w : World) :
  fst (StoreImpl_WritePage store page w)
  = access_error_ (data_file_ (stores w !!! store)).
Proof.
  rewrite WritePage_run. cbn [fst]. unfold BlockAccessFile_Write.
  by destruct (decide _) as [->|].
Qed.

Lemma UnassignFromStore_run (page : PageRef) (w : World) :
  Page_UnassignFromStore page w
  = (tt, if DCHECK_IS_ON
         then if UnassignFromStore_asserts page w
              then set_pages (alter (with_transaction None) page) w
              else mark_dcheck_failed w
         else w).
Proof.
  unfold Page_UnassignFromStore, UnassignFromStore_asserts.
  destruct DCHECK_IS_ON; [| reflexivity]. run_monad.
  destruct (transaction_ (pages w !!! page)) as [owner|]; run_monad; unfold dcheck;
    repeat (destruct (bool_decide _); cbn [andb]; try reflexivity).
Qed.

(** What [Page::UnassignFromStore] leaves of the page in any build, and the
    owner it leaves where DCHECKs are compiled out. *)
Lemma UnassignFromStore_page (page : PageRef) (pg : Page) (w : World) :
  pages w !! page = Some pg ->
  exists pg',
    pages (snd (Page_UnassignFromStore page w)) !! page = Some pg' /\
    page_id_ pg' = page_id_ pg /\
    pin_count_ pg' = pin_count_ pg /\
    is_dirty_ pg' = is_dirty_ pg /\
    data_ pg' = data_ pg /\
    (DCHECK_IS_ON = false -> transaction_ pg' = transaction_ pg).
Proof.
  intros Hpg. rewrite UnassignFromStore_run. cbn [snd].
  destruct DCHECK_IS_ON; [destruct (UnassignFromStore_asserts page w) |].
  - exists (with_transaction None pg). cbn. rewrite list_lookup_alter_eq, Hpg.
    by split_and!.
  - exists pg. by split_and!.
  - exists pg. by split_and!.
Qed.

Lemma UnassignFromStore_rest (page : PageRef) (w : World) :
  let w' := snd (Page_UnassignFromStore page w) in
  pool w' = pool w /\ stores w' = stores w /\ io_log w' = io_log w /\
  forall q, q <> page -> pages w' !! q = pages w !! q.
Proof.
  cbv zeta. rewrite UnassignFromStore_run. cbn [snd].
  destruct DCHECK_IS_ON; [destruct (UnassignFromStore_asserts page w) |];
    split_and!; try reflexivity.
  intros q Hq. cbn. by apply list_lookup_alter_ne.
Qed.

Lemma UnassignPageFromStore_clean (page : PageRef) (w : World) :
  is_dirty_ (pages w !!! page) = false ->
  UnassignPageFromStore page w = Page_UnassignFromStore page w.
Proof.
  intros Hclean. unfold UnassignPageFromStore, UnassignPageFromStore_with, Page_is_dirty.
  run_monad. by rewrite Hclean.
Qed.

Lemma UnassignPageFromStore_dirty (page : PageRef) (store : StoreRef) (w : World) :
  is_dirty_ (pages w !!! page) = true ->
  transaction_ (pages w !!! page) = Some store ->
  UnassignPageFromStore page w
  = (tt, if decide (fst (StoreImpl_WritePage store page w) = kSuccess)
         then written_back page store w
         else snd (StoreImpl_Close store (written_back page store w))).
Proof.
  intros Hdirty Hstore.
  unfold UnassignPageFromStore, UnassignPageFromStore_with, Page_is_dirty, Page_store.
  eval_monad. rewrite Hdirty. eval_monad. rewrite Hstore. unfold written_back.
  destruct (StoreImpl_WritePage store page w) as [status w1]. eval_monad.
  destruct (Page_MarkDirty page false w1) as [[] w2]. eval_monad.
  destruct (Page_UnassignFromStore page w2) as [[] w3]. eval_monad.
  destruct (decide (status = kSuccess)); [reflexivity |].
  eval_monad. by destruct (StoreImpl_Close store w3).
Qed.

(** The page as [written_back] leaves it. *)
Lemma written_back_page (page : PageRef) (store : StoreRef) (pg : Page) (w : World) :
  pages w !! page = Some pg ->
  exists pg',
    pages (written_back page store w) !! page = Some pg' /\
    page_id_ pg' = page_id_ pg /\
    pin_count_ pg' = pin_count_ pg /\
    is_dirty_ pg' = false /\
    data_ pg' = data_ pg /\
    (DCHECK_IS_ON = false -> transaction_ pg' = transaction_ pg).
Proof.
  intros Hpg. unfold written_back.
  set (w2 := snd (Page_MarkDirty page false (snd (StoreImpl_WritePage store page w)))).
  assert (Hpg2 : pages w2 !! page = Some (with_is_dirty false pg)).
  { unfold w2, Page_MarkDirty. rewrite WritePage_run. cbn.
    by rewrite list_lookup_alter_eq, Hpg. }
  destruct (UnassignFromStore_page page _ w2 Hpg2) as (pg' & Hpg' & I & N & D & B & T).
  exists pg'. by split_and!.
Qed.

Lemma written_back_rest (page : PageRef) (store : StoreRef) (w : World) :
  let pg := pages w !!! page in
  let r := BlockAccessFile_Write (data_file_ (stores w !!! store)) (data_ pg)
             (page_offset pg w) (page_size_ (pool w)) in
  pool (written_back page store w) = pool w /\
  stores (written_back page store w)
  = alter (with_data_file (fun _ => snd r)) store (stores w) /\
  io_log (written_back page store w)
  = io_log w ++ [IoWrite store (page_offset pg w) (data_ pg)].
Proof.
  intros pg r. unfold written_back.
  destruct (UnassignFromStore_rest page
              (snd (Page_MarkDirty page false (snd (StoreImpl_WritePage store page w)))))
    as (-> & -> & -> & _).
  unfold Page_MarkDirty. by rewrite WritePage_run.
Qed.

Lemma written_back_unregistered (page : PageRef) (store : StoreRef) (w : World) :
  no_registered_pages w -> no_registered_pages (written_back page store w).
Proof.
  intros Hw. unfold no_registered_pages.
  destruct (written_back_rest page store w) as (_ & -> & _).
  apply Forall_alter; [exact Hw | auto].
Qed.

Lemma Close_unregistered (store : StoreRef) (w : World) :
  no_registered_pages w ->
  StoreImpl_Close store w
  = (kSuccess,
     if decide (state_ (stores w !!! store) = kOpen)
     then set_stores (alter (with_state kClosed) store) w
     else w).
Proof.
  intros Hw. unfold StoreImpl_Close.
  rewrite Close_at_unregistered by (by apply no_registered_lookup).
  destruct (decide (state_ (stores w !!! store) = kOpen)) as [Hopen|Hno].
  - by rewrite decide_True.
  - rewrite decide_False; [done | by intros [_ ?]].
Qed.

Lemma Close_closes (store : StoreRef) (w : World) :
  no_registered_pages w ->
  state_ (stores w !!! store) = kOpen ->
  state_ (stores (snd (StoreImpl_Close store w)) !!! store) = kClosed.
Proof.
  intros Hw Hopen. rewrite (Close_unregistered store w Hw). cbn [snd].
  rewrite decide_True by exact Hopen. cbn.
  assert (Hvalid : (store < length (stores w))%nat).
  { destruct (decide (store < length (stores w))%nat) as [|Hge]; [done |].
    rewrite list_lookup_total_alt, lookup_ge_None_2 in Hopen by lia. discriminate. }
  by rewrite list_lookup_total_alter_eq.
Qed.

(** The page [UnassignPageFromStore] was called on, afterwards: clean, with
    the pins, the page ID and the bytes it had, and with the owner it had
    where DCHECKs are compiled out. *)
Lemma UnassignPageFromStore_page (page : PageRef) (store : StoreRef) (pg : Page)
    (w : World) :
  no_registered_pages w ->
  pages w !! page = Some pg ->
  transaction_ pg = Some store ->
  exists pg',
    pages (snd (UnassignPageFromStore page w)) !! page = Some pg' /\
    page_id_ pg' = page_id_ pg /\
    pin_count_ pg' = pin_count_ pg /\
    is_dirty_ pg' = false /\
    data_ pg' = data_ pg /\
    (DCHECK_IS_ON = false -> transaction_ pg' = Some store).
Proof.
  intros Hw Hpg Hstore.
  pose proof (list_lookup_total_correct _ _ _ Hpg) as Htotal.
  destruct (is_dirty_ pg) eqn:Hdirty.
  - rewrite (UnassignPageFromStore_dirty page store w) by (by rewrite Htotal).
    cbn [snd].
    destruct (written_back_page page store pg w Hpg) as (pg' & Hpg' & I & N & D & B & T).
    exists pg'. split_and!; [| done.. | by rewrite <- Hstore; auto].
    destruct (decide _) as [Hok|Hfail]; [exact Hpg' |].
    rewrite Close_unregistered by (by apply written_back_unregistered). cbn [snd].
    by destruct (decide _).
  - rewrite (UnassignPageFromStore_clean page w) by (by rewrite Htotal).
    destruct (UnassignFromStore_page page pg w Hpg) as (pg' & Hpg' & I & N & D & B & T).
    exists pg'. split_and!; [done.. | congruence | done | by rewrite <- Hstore; auto].
Qed.

End Writeback.

(** Cases on whether the pin just removed was the last one. *)
Ltac split_unpin :=
  lazymatch goal with
  | |- context [if bool_decide ?P then set_pool _ _ else _] =>
    let E := fresh "Elast" in
    destruct (bool_decide P) eqn:E; cbn; cbn in E; rewrite ?E; done
  end.

(** * The properties of the specification *)

(** C1 (defect in the code).  A [StorePage] call that finds (store, page_id)
    in the identity map returns kSuccess with the existing page and reads
    nothing from the data file, but it does not add a pin: after two
    consecutive calls, the second made while the first pin is still held, the
    pin count is 1 and not 2; and when the first pin was given back in
    between, the page comes back with no pin at all, still on the LRU list. *)
Theorem StorePage_hit_adds_no_pin (build : BuildConfig) :
  (let (results, w) := repeated_StorePage (initial_world 12 2) in
   results = ((kSuccess, Some 0%nat), (kSuccess, Some 0%nat)) /\
   pin_count_ (pages w !!! 0%nat) = 1 /\
   io_log w = []) /\
  (let (results, w) := cache_hit_after_unpin (initial_world 12 2) in
   results = ((kSuccess, Some 0%nat), (kSuccess, Some 0%nat)) /\
   pin_count_ (pages w !!! 0%nat) = 0 /\
   lru_list_ (pool w) = [0%nat] /\
   io_log w = []).
Proof. destruct build as [[|]]; vm_compute; repeat split. Qed.

(** C6 (defect in the code).  The free list is a queue, not a stack:
    [UnpinUnassignedPage] appends at the tail and [AllocPage] takes the head.
    With pages 0 and 1 freed in this order, the next [AllocPage] returns
    page 0, the one freed first, and leaves page 1, the most recently freed
    one, on the list. *)
Theorem free_list_is_first_in_first_out (build : BuildConfig) :
  let (results, w) := free_two_then_alloc (initial_world 12 2) in
  results = (Some 0%nat, Some 1%nat, Some 0%nat) /\
  free_list_ (pool w) = [1%nat].
Proof. destruct build as [[|]]; vm_compute; repeat split. Qed.

(** C7 (defect in the code).  [AssignPageToStore] never calls
    [StoreImpl::PageAssigned]: after a successful assignment the page is
    assigned to the store and in the identity map, and the store's
    [pool_pages] list is empty.  The call that is missing would have listed
    the page. *)
Theorem assigned_page_missing_from_pool_pages (build : BuildConfig) :
  let (results, w) := alloc_and_assign (initial_world 12 1) in
  results = (Some 0%nat, kSuccess) /\
  transaction_ (pages w !!! 0%nat) = Some 0%nat /\
  page_map_ (pool w) !! (0%nat, 0) = Some 0%nat /\
  pool_pages_ (stores w !!! 0%nat) = [] /\
  pool_pages_ (stores (snd (StoreImpl_PageAssigned 0%nat 0%nat w)) !!! 0%nat)
  = [0%nat].
Proof. destruct build as [[|]]; vm_compute; repeat split. Qed.

(** C9 (defect in the code).  In the scenario of
    StoreImplTest.CloseUnassignsPages, [Close] finds [pool_pages] empty,
    because no page was ever registered with the store.  The store ends up
    Closed, but its four pages stay assigned, in the identity map and on the
    LRU list: allocated = 4, unused = 0 (the test and the claim say 4),
    pinned = 0. *)
Theorem Close_leaves_pages_assigned (build : BuildConfig) :
  let (results, w) := close_after_four_pages (initial_world 12 16) in
  results = ([kSuccess; kSuccess; kSuccess; kSuccess], kSuccess) /\
  fst (StoreImpl_IsClosed 0%nat w) = true /\
  allocated_pages w = 4 /\
  unused_pages w = 0 /\
  pinned_pages w = 0 /\
  lru_list_ (pool w) = [0; 1; 2; 3]%nat /\
  transaction_ <$> pages w = [Some 0; Some 0; Some 0; Some 0]%nat /\
  page_map_ (pool w) !! (0%nat, 0) = Some 0%nat /\
  page_map_ (pool w) !! (0%nat, 3) = Some 3%nat.
Proof. destruct build as [[|]]; vm_compute; repeat split. Qed.

(** C8 (defect in the code).  The two unpin calls append the page exactly
    when the decremented count is zero, and neither touches the other list;
    yet a page on a list need not be unpinned.  On the pairing page_pool.h
    prescribes, each [StorePage] followed by its [UnpinStorePage], the second
    [StorePage] is a cache hit, which adds no pin, and the
    [UnpinStorePage] that follows it takes the pin count of the page, which
    is on the LRU list, from 0 to 2^64 - 1: a listed page with a pin count
    that is not zero, while [pinned_pages] says 0.  The scenario is that of
    a build without DCHECKs. *)
Theorem listed_page_is_pinned_after_cache_hit :
  (forall page w,
     let w' := snd (UnpinStorePage page w) in
     free_list_ (pool w') = free_list_ (pool w) /\
     lru_list_ (pool w')
     = if bool_decide (pin_count_ (pages w' !!! page) = 0)
       then lru_list_ (pool w) ++ [page] else lru_list_ (pool w)) /\
  (forall page w,
     let w' := snd (UnpinUnassignedPage page w) in
     lru_list_ (pool w') = lru_list_ (pool w) /\
     free_list_ (pool w')
     = if bool_decide (pin_count_ (pages w' !!! page) = 0)
       then free_list_ (pool w) ++ [page] else free_list_ (pool w)) /\
  (let (results, w) := hit_then_unpin (build := release_build) (initial_world 12 2) in
   results = ((kSuccess, Some 0%nat), (kSuccess, Some 0%nat)) /\
   lru_list_ (pool w) = [0%nat] /\
   pin_count_ (pages w !!! 0%nat) = size_t_modulus - 1 /\
   fst (Page_IsUnpinned 0%nat w) = false /\
   pinned_pages w = 0).
Proof.
  split_and!.
  - intros page w w'. unfold w'. rewrite UnpinStorePage_run. cbn [snd].
    split_unpin.
  - intros page w w'. unfold w'. rewrite UnpinUnassignedPage_run. cbn [snd].
    split_unpin.
  - vm_compute. repeat split.
Qed.

(** C4 (defect in the code).  In every reachable state [AllocPage] returns
    null exactly when the pool has grown to its capacity and both lists are
    empty, a null result leaves the pool as it was and comes out of
    [StorePage] as kPoolFull, and a page that is returned is a page of the
    pool, on neither list, with one pin added to its count.  The count it
    had need not be zero, so the page need not be pinned: the pairing
    page_pool.h prescribes, each [StorePage] followed by its
    [UnpinStorePage], ends after a cache hit (which adds no pin) with the
    page on the LRU list carrying 2^64 - 1 pins, and [AllocPage] then hands
    that page out with pin count 0. *)
Theorem AllocPage_null_iff_pool_full :
  (forall (build : BuildConfig) (w : World),
     reachable w ->
     (fst (AllocPage w) = None <->
      page_count_ (pool w) = page_capacity_ (pool w) /\
      free_list_ (pool w) = [] /\ lru_list_ (pool w) = []) /\
     (fst (AllocPage w) = None -> snd (AllocPage w) = w) /\
     (forall store page_id fetch_mode,
        page_map_ (pool w) !! (store, page_id) = None ->
        fst (AllocPage w) = None ->
        StorePage store page_id fetch_mode w = ((kPoolFull, None), w)) /\
     (forall page,
        fst (AllocPage w) = Some page ->
        pool_page page (snd (AllocPage w)) /\
        unlisted page (snd (AllocPage w)) /\
        pins (snd (AllocPage w)) !! page
        = Some (wrap (default 0 (pins w !! page) + 1)))) /\
  (let (results, w) := hit_then_unpin (build := release_build) (initial_world 12 2) in
   let r := AllocPage (build := release_build) w in
   fst r = Some 0%nat /\
   pin_count_ (pages (snd r) !!! 0%nat) = 0 /\
   fst (Page_IsUnpinned 0%nat (snd r)) = true).
Proof.
  split; [| vm_compute; repeat split].
  intros build w Hreach. pose proof (reachable_pool_inv w Hreach) as Hinv.
  pose proof (reachable_no_registered_pages w Hreach) as Hw.
  assert (Hnull : fst (AllocPage w) = None -> AllocPage w = (None, w) /\
            page_count_ (pool w) = page_capacity_ (pool w) /\
            free_list_ (pool w) = [] /\ lru_list_ (pool w) = []).
  { destruct (free_list_ (pool w)) as [|page rest] eqn:Hfree;
      [| by rewrite (AllocPage_free page rest w Hfree)].
    destruct (lru_list_ (pool w)) as [|page rest] eqn:Hlru;
      [| by rewrite (AllocPage_lru page rest w Hfree Hlru)].
    destruct (decide (page_count_ (pool w) < page_capacity_ (pool w))) as [Hroom|Hfull];
      [by rewrite (AllocPage_grow w Hfree Hlru Hroom) |].
    intros _. split; [by apply AllocPage_full |].
    pose proof (inv_count _ Hinv). split; [lia | done]. }
  split_and!.
  - split; [intros H; by apply Hnull |].
    intros (Hcount & Hfree & Hlru). rewrite AllocPage_full; [done.. | lia].
  - intros H. by destruct (Hnull H) as [-> _].
  - intros store page_id fetch_mode Hmiss H.
    rewrite (StorePage_miss _ _ _ _ Hmiss). by destruct (Hnull H) as [-> _].
  - intros page Hsome. by apply (AllocPage_inv w Hw Hinv).
Qed.

Lemma alter_twice {A : Type} (f g : A -> A) (i : nat) (l : list A) :
  alter f i (alter g i l) = alter (fun x => f (g x)) i l.
Proof.
  apply list_eq. intros j. destruct (decide (i = j)) as [->|Hne].
  - rewrite !list_lookup_alter_eq. by destruct (l !! j).
  - by rewrite !list_lookup_alter_ne.
Qed.

Lemma FetchStorePage_ignore_run {build : BuildConfig} (page : PageRef) (w : World) :
  FetchStorePage page kIgnorePageData w
  = (kSuccess,
     let w1 := set_pages (alter (with_is_dirty true) page) w in
     if DCHECK_IS_ON
     then snd (Page_memset page xcd (page_size_ (pool w)) w1)
     else w1).
Proof.
  unfold FetchStorePage, Page_MarkDirty. run_monad.
  destruct DCHECK_IS_ON; run_monad; reflexivity.
Qed.

(** C10.  [StorePage] in kIgnorePageData mode returns kSuccess or kPoolFull,
    never kIoError, in any state of the pool: [FetchStorePage] in that mode
    returns kSuccess, marks the page dirty, fills it with 0xCD when DCHECKs
    are compiled in, and leaves the stores, their files and the I/O log alone;
    the status of a writeback that fails during the eviction in [AllocPage]
    does not reach the caller (third part: scenario C returns kSuccess). *)
Theorem StorePage_ignore_never_reports_io_error {build : BuildConfig} :
  (forall store page_id w,
     let status := fst (fst (StorePage store page_id kIgnorePageData w)) in
     status = kSuccess \/ status = kPoolFull) /\
  (forall page w,
     let r := FetchStorePage page kIgnorePageData w in
     fst r = kSuccess /\
     pool (snd r) = pool w /\ stores (snd r) = stores w /\
     io_log (snd r) = io_log w /\
     pages (snd r)
     = alter (fun pg =>
                mkPage (transaction_ pg) (page_id_ pg) (pin_count_ pg) true
                  (if DCHECK_IS_ON
                   then replicate (Z.to_nat (page_size_ (pool w))) xcd
                        ++ drop (Z.to_nat (page_size_ (pool w))) (data_ pg)
                   else data_ pg))
         page (pages w)) /\
  fst (evict_with_failing_writeback (initial_world 12 1)) = (kSuccess, Some 0%nat).
Proof.
  split_and!.
  - intros store page_id w.
    destruct (page_map_ (pool w) !! (store, page_id)) as [page|] eqn:Hmap.
    + rewrite (StorePage_hit _ _ _ _ _ Hmap). by left.
    + rewrite (StorePage_miss _ _ _ _ Hmap).
      destruct (fst (AllocPage w)) as [page|]; [| by right].
      cbv zeta. rewrite AssignPageToStore_run. cbv zeta.
      rewrite FetchStorePage_ignore_run. cbn [fst snd].
      destruct (decide (kSuccess = kSuccess)); [by left | done].
  - intros page w. cbn zeta. rewrite FetchStorePage_ignore_run. cbn [fst snd].
    destruct DCHECK_IS_ON; cbn; split_and!; try reflexivity.
    by rewrite alter_twice.
  - destruct build as [[|]]; vm_compute; reflexivity.
Qed.


(** C5, amended.  With the free list empty and page [victim] at the head of
    the LRU list in a reachable state, [AllocPage] returns [victim]: popped
    off the LRU list, its (store, page id) entry erased from the identity
    map, one pin added, and handed to [UnassignPageFromStore], which leaves
    it clean.  A dirty victim is first written to its store at its page
    offset, and if the file takes the write the block there holds the
    victim's page; a clean victim causes no I/O.  Where DCHECKs are compiled
    out the owner field of the victim still names the store. *)
Theorem AllocPage_evicts_lru_head {build : BuildConfig} (victim : PageRef)
    (rest : list PageRef) (pg : Page) (store : StoreRef) (w : World) :
  reachable w ->
  free_list_ (pool w) = [] ->
  lru_list_ (pool w) = victim :: rest ->
  pages w !! victim = Some pg ->
  transaction_ pg = Some store ->
  let w' := snd (AllocPage w) in
  fst (AllocPage w) = Some victim /\
  w' = snd (UnassignPageFromStore victim (evict_pinned victim w)) /\
  lru_list_ (pool w') = rest /\
  free_list_ (pool w') = [] /\
  page_map_ (pool w') = delete (store, page_id_ pg) (page_map_ (pool w)) /\
  (exists pg',
     pages w' !! victim = Some pg' /\
     pin_count_ pg' = wrap (pin_count_ pg + 1) /\
     is_dirty_ pg' = false /\
     data_ pg' = data_ pg /\
     (DCHECK_IS_ON = false -> transaction_ pg' = Some store)) /\
  (is_dirty_ pg = true ->
     (exists later,
        io_log w' = io_log w ++ IoWrite store (page_offset pg w) (data_ pg) :: later) /\
     ((store < length (stores w))%nat ->
      access_error_ (data_file_ (stores w !!! store)) = kSuccess ->
      io_log w' = io_log w ++ [IoWrite store (page_offset pg w) (data_ pg)] /\
      file_blocks (data_file_ (stores w' !!! store)) !! page_offset pg w
      = Some (take (Z.to_nat (page_size_ (pool w))) (data_ pg)))) /\
  (is_dirty_ pg = false -> io_log w' = io_log w /\ stores w' = stores w).
Proof.
  intros Hreach Hfree Hlru Hpg Hstore w'.
  pose proof (reachable_no_registered_pages w Hreach) as Hw.
  pose proof (AllocPage_lru victim rest w Hfree Hlru) as Halloc.
  assert (Hw' : w' = snd (UnassignPageFromStore victim (evict_pinned victim w)))
    by (unfold w'; by rewrite Halloc).
  set (mid := evict_pinned victim w) in *.
  pose proof (evict_pinned_unregistered victim w Hw) as Hmidw. fold mid in Hmidw.
  pose proof (evict_pinned_page victim pg w Hpg) as Hmid. fold mid in Hmid.
  destruct (evict_pinned_rest victim w) as (Hstores & Hlog & Hsize & Hmfree & Hmlru).
  fold mid in Hstores, Hlog, Hsize, Hmfree, Hmlru.
  pose proof (list_lookup_total_correct _ _ _ Hmid) as Htotal.
  destruct (unregistered_frame_UnassignPageFromStore victim mid Hmidw) as [Hpool _].
  rewrite <- Hw' in Hpool.
  split_and!.
  - by rewrite Halloc.
  - exact Hw'.
  - by rewrite Hpool, Hmlru, Hlru.
  - by rewrite Hpool, Hmfree, Hfree.
  - rewrite Hpool. unfold mid, evict_pinned.
    by rewrite (list_lookup_total_correct _ _ _ Hpg), Hstore.
  - destruct (UnassignPageFromStore_page victim store _ mid Hmidw Hmid Hstore)
      as (pg' & Hpg' & Hid & Hpin & Hclean & Hdata & Howner).
    rewrite <- Hw' in Hpg'. exists pg'. by split_and!.
  - intros Hdirty.
    assert (Hrun : w' = if decide (fst (StoreImpl_WritePage store victim mid) = kSuccess)
                        then written_back victim store mid
                        else snd (StoreImpl_Close store (written_back victim store mid))).
    { rewrite Hw', (UnassignPageFromStore_dirty victim store mid); [done | |];
        by rewrite Htotal. }
    destruct (written_back_rest victim store mid) as (_ & Hwstores & Hwlog).
    rewrite Htotal in Hwstores, Hwlog. cbn [data_ with_pin_count] in Hwstores, Hwlog.
    unfold page_offset in *. cbn [page_id_ with_pin_count] in Hwstores, Hwlog.
    rewrite Hsize, Hlog in Hwlog. rewrite Hsize, Hstores in Hwstores.
    split.
    + destruct (decide _) as [Hok|Hfail]; rewrite Hrun.
      * exists []. exact Hwlog.
      * destruct (keeps_Close settles store cascade_settles
                    (written_back victim store mid)) as [_ _ [later Hlater]].
        exists later. by rewrite Hlater, Hwlog, <- app_assoc.
    + intros Hvalid Herr.
      rewrite WritePage_status, Hstores, Herr in Hrun.
      rewrite decide_True in Hrun by reflexivity. rewrite Hrun.
      split; [exact Hwlog |].
      rewrite Hwstores, list_lookup_total_alter_eq by exact Hvalid.
      unfold BlockAccessFile_Write. rewrite decide_True by exact Herr.
      cbn. apply lookup_insert_eq.
  - intros Hclean.
    rewrite Hw', (UnassignPageFromStore_clean victim mid) by (by rewrite Htotal).
    destruct (UnassignFromStore_rest victim mid) as (_ & -> & -> & _). by split.
Qed.

Section Rollback.

Context {build : BuildConfig}.





Lemma pinned_pages_wrap (w : World) :
  pinned_pages w
  = wrap (page_count_ (pool w) - LinkedList_size (free_list_ (pool w))
          - LinkedList_size (lru_list_ (pool w))).
Proof.
  unfold pinned_pages, wrap. apply Zminus_mod_idemp_l.
Qed.

Lemma keeps_Page_Create R :
  R = registers_nothing \/ R = map_shrinks -> keeps R Page_Create.
Proof.
  intros [-> | ->] w;
    [by apply registers_nothing_same_stores | by apply map_shrinks_same_pool].
Qed.

Lemma AllocPage_page_map (key : StoreRef * Z) (w : World) :
  page_map_ (pool w) !! key = None ->
  page_map_ (pool (snd (AllocPage w))) !! key = None.
Proof.
  revert key. change (map_shrinks w (snd (AllocPage w))). revert w.
  change (keeps map_shrinks AllocPage).
  unfold AllocPage, Page_AddPin, Page_store, Page_page_id, page_map_erase.
  repeat first
    [ apply keeps_UnassignPageFromStore, cascade_map_shrinks
    | apply keeps_Page_Create; by right
    | keeps_step ].
Qed.

Lemma state_alter_data_file (f : BlockAccessFile -> BlockAccessFile)
    (i j : StoreRef) (l : list StoreImpl) :
  state_ (alter (with_data_file f) i l !!! j) = state_ (l !!! j).
Proof.
  rewrite !list_lookup_total_alt, list_lookup_alter.
  destruct (decide (i = j)) as [->|]; [| done]. by destruct (l !! j).
Qed.

End Rollback.




(** C3, amended.  When [WritePage] fails while [UnassignPageFromStore]
    flushes a dirty page in a reachable state, the call ends with a [Close]
    of the owning store, made after the page was marked clean and handed to
    [Page::UnassignFromStore].  Afterwards the page is clean and has the
    pins it had, a store that was open is Closed, and the pool's lists, map
    and pin counts are untouched.  Where DCHECKs are compiled out the owner
    field of the page still names the store (see the counterexample).
    Whatever the writeback does, an eviction hands the victim to
    [AllocPage]'s caller, and a [StorePage] in kIgnorePageData mode that
    needed the eviction returns kSuccess. *)
Theorem failed_writeback_closes_store {build : BuildConfig} (page : PageRef)
    (pg : Page) (store : StoreRef) (w : World) :
  reachable w ->
  pages w !! page = Some pg ->
  is_dirty_ pg = true ->
  transaction_ pg = Some store ->
  fst (StoreImpl_WritePage store page w) <> kSuccess ->
  let w' := snd (UnassignPageFromStore page w) in
  w' = snd (StoreImpl_Close store (written_back page store w)) /\
  (exists pg',
     pages w' !! page = Some pg' /\
     is_dirty_ pg' = false /\
     pin_count_ pg' = pin_count_ pg /\
     data_ pg' = data_ pg /\
     (DCHECK_IS_ON = false -> transaction_ pg' = Some store)) /\
  (state_ (stores w !!! store) = kOpen ->
   state_ (stores w' !!! store) = kClosed) /\
  pool w' = pool w /\
  pins w' = pins w /\
  (forall w0 victim rest,
     free_list_ (pool w0) = [] ->
     lru_list_ (pool w0) = victim :: rest ->
     fst (AllocPage w0) = Some victim /\
     forall store' page_id,
       page_map_ (pool w0) !! (store', page_id) = None ->
       fst (StorePage store' page_id kIgnorePageData w0) = (kSuccess, Some victim)).
Proof.
  intros Hreach Hpg Hdirty Hstore Hfail w'.
  pose proof (reachable_no_registered_pages w Hreach) as Hw.
  pose proof (list_lookup_total_correct _ _ _ Hpg) as Htotal.
  assert (Hw' : w' = snd (StoreImpl_Close store (written_back page store w))).
  { unfold w'. rewrite (UnassignPageFromStore_dirty page store w);
      [| by rewrite Htotal..].
    cbn [snd]. by rewrite decide_False. }
  destruct (unregistered_frame_UnassignPageFromStore page w Hw) as [Hpool Hpins].
  split_and!.
  - exact Hw'.
  - destruct (UnassignPageFromStore_page page store pg w Hw Hpg Hstore)
      as (pg' & Hpg' & _ & Hpin & Hclean & Hdata & Howner).
    exists pg'. by split_and!.
  - intros Hopen. rewrite Hw'.
    apply Close_closes; [by apply written_back_unregistered |].
    destruct (written_back_rest page store w) as (_ & -> & _).
    by rewrite state_alter_data_file.
  - exact Hpool.
  - exact Hpins.
  - intros w0 victim rest Hfree Hlru.
    pose proof (AllocPage_lru victim rest w0 Hfree Hlru) as Halloc.
    split; [by rewrite Halloc |].
    intros store' page_id Hmiss.
    rewrite (StorePage_miss _ _ _ _ Hmiss), Halloc. cbn [fst snd]. cbv zeta.
    rewrite AssignPageToStore_run. cbv zeta.
    rewrite FetchStorePage_ignore_run. cbn [fst snd].
    by rewrite !decide_True.
Qed.

Lemma failed_writeback_closes_store_witness :
  let w := snd (before_failing_unassign (build := release_build) (initial_world 4 1)) in
  let w' := snd (UnassignPageFromStore (build := release_build) 0%nat w) in
  let w0 := snd (before_failing_writeback (build := release_build) (initial_world 4 1)) in
  (exists pg',
     pages w' !! 0%nat = Some pg' /\
     is_dirty_ pg' = false /\
     pin_count_ pg' = 1 /\
     transaction_ pg' = Some 0%nat) /\
  state_ (stores w' !!! 0%nat) = kClosed /\
  fst (AllocPage (build := release_build) w0) = Some 0%nat /\
  fst (StorePage (build := release_build) 0%nat 1 kIgnorePageData w0)
  = (kSuccess, Some 0%nat).
Proof.
  intros w w' w0.
  assert (Hreach : reachable (build := release_build) w).
  { unfold w, before_failing_unassign. rewrite !snd_bind. cbn [fst snd ret].
    eapply reachable_step;
      [eapply reachable_step;
         [eapply reachable_step;
            [eapply reachable_step;
               [apply (reachable_initial 4 1); unfold size_t_modulus; lia
               | apply (step_Create healthy_file)]
            | apply step_AllocPage]
         | apply (step_AssignPageToStore 0%nat 0%nat 0 kIgnorePageData)]
      | apply (step_SetAccessError 0%nat kIoError)].
    - exact (le_n 1).
    - vm_compute. apply not_elem_of_nil. }
  destruct (failed_writeback_closes_store (build := release_build) 0%nat
              (pages w !!! 0%nat) 0%nat w Hreach)
    as (_ & (pg' & Hpg' & Hclean & Hpin & _ & Howner) & Hclosed & _ & _ & Hevict);
    [reflexivity | reflexivity | reflexivity | discriminate |].
  destruct (Hevict w0 0%nat []) as [Halloc Hstore]; [reflexivity | reflexivity |].
  split_and!;
    [| exact (Hclosed eq_refl) | exact Halloc | apply Hstore; reflexivity].
  exists pg'. split_and!; [exact Hpg' | exact Hclean | exact Hpin | exact (Howner eq_refl)].
Defined.

(** C3 as stated fails in a build without DCHECKs: in
    PagePoolTest.UnassignFromStoreIoError the page ends up clean and the
    store closed, and the page's owner field still names the store. *)
Lemma failed_writeback_keeps_owner_without_dchecks :
  let w := snd (failed_unassign (build := release_build) (initial_world 12 1)) in
  fst (StoreImpl_IsClosed 0%nat w) = true /\
  is_dirty_ (pages w !!! 0%nat) = false /\
  transaction_ (pages w !!! 0%nat) = Some 0%nat /\
  transaction_ (pages w !!! 0%nat) <> None.
Proof. vm_compute. by split_and!. Qed.

Lemma AllocPage_evicts_lru_head_witness :
  let w := snd (before_eviction (build := release_build) (initial_world 4 1)) in
  let w' := snd (AllocPage (build := release_build) w) in
  fst (AllocPage (build := release_build) w) = Some 0%nat /\
  lru_list_ (pool w') = [] /\
  page_map_ (pool w') !! (0%nat, 0) = None /\
  io_log w' = [IoWrite 0%nat 0 pattern_X] /\
  file_blocks (data_file_ (stores w' !!! 0%nat)) !! 0 = Some pattern_X.
Proof.
  intros w w'.
  assert (Hreach : reachable (build := release_build) w).
  { unfold w, before_eviction. rewrite !snd_bind. cbn [fst snd ret].
    eapply reachable_step;
      [eapply reachable_step;
         [eapply reachable_step;
            [eapply reachable_step;
               [eapply reachable_step;
                  [apply (reachable_initial 4 1); unfold size_t_modulus; lia
                  | apply (step_Create healthy_file)]
               | apply (step_StorePage 0%nat 0 kIgnorePageData)]
            | apply (step_Page_write 0%nat pattern_X)]
         | apply (step_MarkDirty 0%nat true)]
      | apply (step_UnpinStorePage 0%nat)].
    - exact (le_n 1).
    - intros _. vm_compute. apply not_elem_of_nil. }
  destruct (AllocPage_evicts_lru_head (build := release_build) 0%nat []
              (pages w !!! 0%nat) 0%nat w Hreach)
    as (Hpage & _ & Hlru & _ & Hmap & _ & Hdirty & _);
    [vm_compute; reflexivity.. |].
  destruct Hdirty as [_ Hwritten]; [vm_compute; reflexivity |].
  destruct Hwritten as [Hlog Hblock]; [exact (le_n 1) | vm_compute; reflexivity |].
  split_and!; [exact Hpage | exact Hlru | | exact Hlog | exact Hblock].
  unfold w'. rewrite Hmap. vm_compute. reflexivity.
Defined.

(** C5 as stated fails in a build without DCHECKs: after the eviction of
    scenario B the victim is pinned, clean and out of the identity map, and
    its owner field still names the store it was evicted from. *)
Lemma evicted_page_keeps_owner_without_dchecks :
  let w := snd (before_eviction (build := release_build) (initial_world 4 1)) in
  let r := AllocPage (build := release_build) w in
  fst r = Some 0%nat /\
  page_map_ (pool (snd r)) !! (0%nat, 0) = None /\
  transaction_ (pages (snd r) !!! 0%nat) = Some 0%nat /\
  transaction_ (pages (snd r) !!! 0%nat) <> None.
Proof. vm_compute. by split_and!. Qed.

(** ** The depth given to [Close_at] is enough

    A close nested in another one finds at least one store fewer open, so
    the result of [Close_at] no longer depends on the depth once the depth
    is at least the number of open stores; [StoreImpl_Close] starts with more
    than that. *)

Section CloseDepth.

Context {build : BuildConfig}.

Lemma open_stores_length (w : World) : (open_stores w <= length (stores w))%nat.
Proof. apply length_filter. Qed.

Lemma open_store_counted (store : StoreRef) (w : World) :
  state_ (stores w !!! store) = kOpen -> (0 < open_stores w)%nat.
Proof.
  intros Hopen. unfold open_stores.
  rewrite <- (open_count_alter_closing store (stores w) Hopen). lia.
Qed.

Lemma calms_same_stores (w w' : World) : stores w' = stores w -> calms w w'.
Proof. intros Hstores. unfold calms, open_stores. by rewrite Hstores. Qed.

Lemma UnassignPageFromStore_with_ext (Close1 Close2 : StoreRef -> M Status)
    (page : PageRef) (w : World) :
  (forall s w0, calms w w0 -> Close1 s w0 = Close2 s w0) ->
  UnassignPageFromStore_with Close1 page w = UnassignPageFromStore_with Close2 page w.
Proof.
  intros Hext. unfold UnassignPageFromStore_with, Page_is_dirty, Page_store.
  eval_monad. destruct (is_dirty_ _); [| reflexivity].
  destruct (transaction_ _) as [s|]; [| reflexivity].
  destruct (StoreImpl_WritePage s page w) as [status w1] eqn:Hwrite.
  destruct (Page_MarkDirty page false w1) as [[] w2] eqn:Hmark.
  destruct (Page_UnassignFromStore page w2) as [[] w3] eqn:Hunassign.
  destruct (decide _); [reflexivity |].
  rewrite Hext; [reflexivity |].
  assert (H1 : calms w w1).
  { replace w1 with (snd (StoreImpl_WritePage s page w)) by (by rewrite Hwrite).
    apply keeps_WritePage, cascade_calms. }
  assert (H2 : calms w1 w2).
  { replace w2 with (snd (Page_MarkDirty page false w1)) by (by rewrite Hmark).
    by apply calms_same_stores. }
  assert (H3 : calms w2 w3).
  { replace w3 with (snd (Page_UnassignFromStore page w2)) by (by rewrite Hunassign).
    apply calms_same_stores. by destruct (UnassignFromStore_rest page w2) as (_ & -> & _). }
  by etrans; [etrans |].
Qed.

Lemma Close_page_ext (Close1 Close2 : StoreRef -> M Status) (store : StoreRef)
    (page : PageRef) (w : World) :
  (forall s w0, calms w w0 -> Close1 s w0 = Close2 s w0) ->
  Close_page Close1 store page w = Close_page Close2 store page w.
Proof.
  intros Hext. unfold Close_page. rewrite !bind_run.
  match goal with
  | |- context [UnassignPageFromStore_with Close1 page ?w1] =>
    rewrite (UnassignPageFromStore_with_ext Close1 Close2 page w1); [reflexivity |];
    intros s w0 Hcalm; apply Hext; etrans; [| exact Hcalm]
  end.
  apply calms_same_stores. unfold page_map_erase, Page_store, Page_page_id.
  run_monad. by destruct (transaction_ _).
Qed.

Lemma for_each_ext {A : Type} (P : World -> Prop) (l : list A) (f g : A -> M unit)
    (w : World) :
  (forall a w0, P w0 -> f a w0 = g a w0) ->
  (forall a w0, P w0 -> P (snd (f a w0))) ->
  P w ->
  for_each l f w = for_each l g w.
Proof.
  intros Hext Hkeep. revert w. induction l as [|a l IH]; intros w Hw; cbn.
  - reflexivity.
  - unfold bind. rewrite <- (Hext a w Hw).
    specialize (Hkeep a w Hw). destruct (f a w) as [[] w1]. by apply IH.
Qed.

Lemma Close_at_closed (depth : nat) (store : StoreRef) (w : World) :
  open_stores w = 0%nat -> Close_at depth store w = (kSuccess, w).
Proof.
  intros Hnone. destruct depth as [|depth]; [reflexivity |].
  cbn [Close_at]. eval_monad.
  destruct (decide (state_ (stores w !!! store) = kOpen)) as [Hopen|]; [| reflexivity].
  apply open_store_counted in Hopen. lia.
Qed.

Lemma Close_at_stable (n m : nat) (store : StoreRef) (w : World) :
  (open_stores w <= n)%nat -> (open_stores w <= m)%nat ->
  Close_at n store w = Close_at m store w.
Proof.
  revert m store w. induction n as [|n IH]; intros m store w Hn Hm.
  - rewrite (Close_at_closed m) by lia. reflexivity.
  - destruct m as [|m]; [rewrite (Close_at_closed (S n)) by lia; reflexivity |].
    cbn [Close_at]. eval_monad.
    destruct (decide (state_ (stores w !!! store) = kOpen)) as [Hopen|]; [| reflexivity].
    set (w1 := set_stores (alter (with_state kClosing) store) w).
    assert (Hw1 : S (open_stores w1) = open_stores w).
    { unfold w1, open_stores; cbn [stores set_stores].
      by apply open_count_alter_closing. }
    rewrite (for_each_ext (fun w0 => (open_stores w0 <= n)%nat /\ (open_stores w0 <= m)%nat)
               _ _ (Close_page (Close_at m) store)).
    + reflexivity.
    + intros page w0 [Hn0 Hm0]. apply Close_page_ext.
      intros s w0' Hcalm. unfold calms in Hcalm. apply IH; lia.
    + intros page w0 [Hn0 Hm0].
      pose proof (keeps_Close_page calms (Close_at n) store page cascade_calms
                    (fun s => keeps_Close_at calms n s cascade_calms) w0) as Hcalm.
      unfold calms in Hcalm. lia.
    + lia.
Qed.

(** Any depth that covers the open stores gives the result of [Close]. *)
Lemma Close_at_enough (depth : nat) (store : StoreRef) (w : World) :
  (open_stores w <= depth)%nat ->
  Close_at depth store w = StoreImpl_Close store w.
Proof.
  intros Hdepth. unfold StoreImpl_Close. apply Close_at_stable; [exact Hdepth |].
  pose proof (open_stores_length w). lia.
Qed.

(** With its pages registered, scenario D ends as the specification says:
    [Close] takes the four pages off the LRU list and out of the identity
    map and returns them to the free list. *)
Lemma Close_drains_registered_pages :
  let w := snd (close_after_four_pages_registered (initial_world 12 16)) in
  fst (StoreImpl_IsClosed 0%nat w) = true /\
  allocated_pages w = 4 /\ unused_pages w = 4 /\ pinned_pages w = 0 /\
  lru_list_ (pool w) = [] /\
  page_map_ (pool w) = ∅ /\
  pool_pages_ (stores w !!! 0%nat) = [] /\
  dcheck_failed w = false.
Proof. destruct build as [[|]]; vm_compute; repeat split. Qed.

End CloseDepth.

(** * Further properties of the code *)

(** ** The constructor and the pin counter *)

(** X1.  For a page shift that an [int] shift can take, the constructor sets
    the page size to 2 ^ page_shift, which passes its power-of-two check, and
    leaves a pool that holds no page: allocated, unused and pinned are 0. *)
Theorem PagePool_new_page_size_is_power_of_two (page_shift page_capacity : Z) :
  0 <= page_shift < 31 ->
  let w := initial_world page_shift page_capacity in
  page_shift_ (pool w) = page_shift /\
  page_size_ (pool w) = 2 ^ page_shift /\
  Z.land (page_size_ (pool w)) (page_size_ (pool w) - 1) = 0 /\
  page_capacity_ (pool w) = page_capacity /\
  allocated_pages w = 0 /\ unused_pages w = 0 /\ pinned_pages w = 0.
Proof.
  intros Hshift w. cbn.
  assert (Hsize : Z.shiftl 1 page_shift = 2 ^ page_shift).
  { rewrite Z.shiftl_mul_pow2 by lia. lia. }
  rewrite Hsize. split_and!; try reflexivity.
  replace (2 ^ page_shift - 1) with (Z.ones page_shift)
    by (rewrite Z.ones_equiv; lia).
  rewrite Z.land_ones by lia. apply Z.mod_same. lia.
Qed.

Lemma PagePool_new_page_size_is_power_of_two_witness :
  let w := initial_world 16 42 in
  page_shift_ (pool w) = 16 /\
  page_size_ (pool w) = 65536 /\
  Z.land (page_size_ (pool w)) (page_size_ (pool w) - 1) = 0 /\
  page_capacity_ (pool w) = 42 /\
  allocated_pages w = 0 /\ unused_pages w = 0 /\ pinned_pages w = 0.
Proof.
  exact (PagePool_new_page_size_is_power_of_two 16 42 ltac:(lia)).
Defined.

Lemma alter_at_fixed {A : Type} (f : A -> A) (i : nat) (x : A) (l : list A) :
  l !! i = Some x -> f x = x -> alter f i l = l.
Proof.
  intros Hx Hf. apply list_eq. intros j. destruct (decide (i = j)) as [<-|Hne].
  - by rewrite list_lookup_alter_eq, Hx; cbn; rewrite Hf.
  - by rewrite list_lookup_alter_ne.
Qed.

(** X2.  A pin added and removed again leaves the page, and the world, as
    they were, for every pin count a [size_t] holds; at the two ends the
    counter wraps: one more pin on a page that has 2^64 - 1 makes it look
    unpinned, and one pin less on a page that has none leaves it with
    2^64 - 1 pins. *)
Theorem AddPin_RemovePin_cancel {build : BuildConfig} (page : PageRef)
    (pg : Page) (w : World) :
  pages w !! page = Some pg ->
  0 <= pin_count_ pg < size_t_modulus ->
  snd (Page_RemovePin page (snd (Page_AddPin page w))) = w /\
  snd (Page_AddPin page (snd (Page_RemovePin page w))) = w /\
  (pin_count_ pg = size_t_modulus - 1 ->
   fst (Page_IsUnpinned page (snd (Page_AddPin page w))) = true) /\
  (pin_count_ pg = 0 ->
   pin_count_ (pages (snd (Page_RemovePin page w)) !!! page) = size_t_modulus - 1).
Proof.
  intros Hpg Hrange.
  assert (Hback : wrap (wrap (pin_count_ pg + 1) - 1) = pin_count_ pg).
  { unfold wrap. rewrite Zminus_mod_idemp_l.
    replace (pin_count_ pg + 1 - 1) with (pin_count_ pg) by lia.
    by apply Z.mod_small. }
  assert (Hforth : wrap (wrap (pin_count_ pg - 1) + 1) = pin_count_ pg).
  { unfold wrap. rewrite Zplus_mod_idemp_l.
    replace (pin_count_ pg - 1 + 1) with (pin_count_ pg) by lia.
    by apply Z.mod_small. }
  split_and!.
  - rewrite AddPin_run, RemovePin_run. cbn [snd]. destruct w as [pl pgs sts log failed].
    unfold set_pages; cbn. f_equal. rewrite alter_twice.
    apply (alter_at_fixed _ _ pg); [exact Hpg |].
    destruct pg; unfold with_pin_count; cbn in *. by rewrite Hback.
  - rewrite AddPin_run, RemovePin_run. cbn [snd]. destruct w as [pl pgs sts log failed].
    unfold set_pages; cbn. f_equal. rewrite alter_twice.
    apply (alter_at_fixed _ _ pg); [exact Hpg |].
    destruct pg; unfold with_pin_count; cbn in *. by rewrite Hforth.
  - intros Hmax. rewrite AddPin_run. unfold Page_IsUnpinned. eval_monad. cbn.
    rewrite list_lookup_total_alter_eq by (by eapply lookup_lt_Some).
    rewrite (list_lookup_total_correct _ _ _ Hpg). cbn. rewrite Hmax.
    reflexivity.
  - intros Hzero. rewrite RemovePin_run. cbn.
    rewrite list_lookup_total_alter_eq by (by eapply lookup_lt_Some).
    rewrite (list_lookup_total_correct _ _ _ Hpg). cbn. rewrite Hzero.
    reflexivity.
Qed.

Lemma AddPin_RemovePin_cancel_witness :
  let w := snd (AllocPage (build := release_build) (initial_world 4 1)) in
  snd (Page_RemovePin 0%nat (snd (Page_AddPin 0%nat w))) = w.
Proof.
  intros w.
  refine (proj1 (AddPin_RemovePin_cancel (build := release_build) 0%nat
                   (pages w !!! 0%nat) w _ _)).
  - reflexivity.
  - vm_compute. split; [discriminate | reflexivity].
Defined.

(** ** Accounting for the entries of the pool *)

(** The entries of an arena of [n] pages that are on a list without
    duplicates, and those that are not, add up to [n]. *)
Lemma unlisted_count (l : list nat) (n : nat) :
  NoDup l -> (forall page, page ∈ l -> (page < n)%nat) ->
  (length (filter (fun page => page ∉ l) (seq 0 n)) + length l = n)%nat.
Proof.
  intros Hnodup Hbound.
  assert (Hlisted : filter (fun page => page ∈ l) (seq 0 n) ≡ₚ l).
  { apply NoDup_Permutation; [apply NoDup_filter, NoDup_seq | exact Hnodup |].
    intros page. rewrite list_elem_of_filter, elem_of_seq. split; [tauto |].
    intros Hpage. specialize (Hbound page Hpage). split; [exact Hpage | lia]. }
  pose proof (filter_app_complement (fun page => page ∈ l) (seq 0 n)) as Hsplit.
  apply Permutation_length in Hsplit. rewrite length_app, length_seq in Hsplit.
  rewrite Hlisted in Hsplit. lia.
Qed.

(** X3.  In every reachable state the pool holds at most [page_capacity]
    entries, [allocated_pages] is the number of entries ever created (none is
    destroyed while the pool lives), and the two lists together never hold
    more entries than were allocated. *)
Theorem allocated_pages_within_capacity {build : BuildConfig} (w : World) :
  reachable w ->
  0 <= allocated_pages w <= page_capacity_ (pool w) /\
  allocated_pages w = Z.of_nat (length (pages w)) /\
  unused_pages w + LinkedList_size (lru_list_ (pool w)) <= allocated_pages w.
Proof.
  intros Hreach.
  pose proof (reachable_pool_inv w Hreach) as Hinv.
  pose proof (pool_inv_lists_bound w Hinv) as Hbound.
  destruct Hinv as [_ _ A C _].
  unfold allocated_pages, unused_pages. split_and!; [lia.. | exact A | exact Hbound].
Qed.

Lemma allocated_pages_within_capacity_witness :
  let w := snd (alloc_then_free (build := debug_build) (initial_world 12 1)) in
  0 <= allocated_pages w <= 1 /\
  allocated_pages w = 1 /\
  unused_pages w + 0 <= allocated_pages w.
Proof.
  intros w.
  assert (Hreach : reachable (build := debug_build) w).
  { eapply reachable_step;
      [eapply reachable_step;
         [apply (reachable_initial 12 1); unfold size_t_modulus; lia
         | apply step_AllocPage]
      | apply (step_UnpinUnassignedPage 0%nat);
          [exact (le_n 1) | intros _; vm_compute; apply not_elem_of_nil]]. }
  exact (allocated_pages_within_capacity w Hreach).
Defined.

(** X4.  In every reachable state [pinned_pages] is the number of entries
    that are on neither list, and the unsigned subtractions in the accessor
    never wrap.  The number counts the entries that are off the lists, not
    the pins: after a cache hit and the unpin that pairs with it an entry
    with a pin count other than zero is on the LRU list, and [pinned_pages]
    leaves it out. *)
Theorem pinned_pages_counts_unlisted_entries {build : BuildConfig} (w : World) :
  reachable w ->
  pinned_pages w = unlisted_entries w /\
  pinned_pages w
  = allocated_pages w - unused_pages w - LinkedList_size (lru_list_ (pool w)).
Proof.
  intros Hreach.
  pose proof (reachable_pool_inv w Hreach) as Hinv.
  pose proof (pool_inv_lists_bound w Hinv) as Hbound.
  destruct Hinv as [L N A C K].
  pose proof (unlisted_count _ _ N L) as Hcount. rewrite length_app in Hcount.
  assert (Hlists : 0 <= LinkedList_size (free_list_ (pool w))
                   /\ 0 <= LinkedList_size (lru_list_ (pool w)))
    by (unfold LinkedList_size; lia).
  rewrite pinned_pages_wrap. unfold allocated_pages, unused_pages, unlisted_entries.
  rewrite wrap_small by lia. unfold LinkedList_size in *. lia.
Qed.

Lemma pinned_pages_counts_unlisted_entries_witness :
  let w := snd (AllocPage (build := release_build) (initial_world 12 2)) in
  pinned_pages w = 1 /\ unlisted_entries w = 1.
Proof.
  intros w.
  assert (Hreach : reachable (build := release_build) w).
  { eapply reachable_step;
      [apply (reachable_initial 12 2); unfold size_t_modulus; lia
      | apply step_AllocPage]. }
  destruct (pinned_pages_counts_unlisted_entries w Hreach) as [Hpinned _].
  split; [reflexivity | rewrite <- Hpinned; reflexivity].
Defined.

Section Configuration.

Context {build : BuildConfig}.

Lemma same_pool_configuration (w w' : World) :
  pool w' = pool w ->
  same_configuration w w' /\ page_count_ (pool w') = page_count_ (pool w).
Proof. intros Hpool. unfold same_configuration. by rewrite Hpool. Qed.

Lemma UnpinUnassignedPage_configuration (page : PageRef) (w : World) :
  let w' := snd (UnpinUnassignedPage page w) in
  same_configuration w w' /\ page_count_ (pool w') = page_count_ (pool w).
Proof.
  cbv zeta. rewrite UnpinUnassignedPage_run. cbn [snd].
  by destruct (bool_decide _).
Qed.

Lemma UnpinStorePage_configuration (page : PageRef) (w : World) :
  let w' := snd (UnpinStorePage page w) in
  same_configuration w w' /\ page_count_ (pool w') = page_count_ (pool w).
Proof.
  cbv zeta. rewrite UnpinStorePage_run. cbn [snd].
  by destruct (bool_decide _).
Qed.

Lemma AssignPageToStore_configuration (page : PageRef) (store : StoreRef)
    (page_id : Z) (fetch_mode : PageFetchMode) (w : World) :
  let w' := snd (AssignPageToStore page store page_id fetch_mode w) in
  same_configuration w w' /\ page_count_ (pool w') = page_count_ (pool w).
Proof.
  cbv zeta. rewrite AssignPageToStore_run.
  set (w1 := snd (Page_AssignToStore page store page_id w)).
  set (r := FetchStorePage page fetch_mode w1).
  assert (Hframe : pool (snd r) = pool w).
  { apply AssignPageToStore_frame. }
  destruct (decide (fst r = kSuccess)); cbn [snd].
  - unfold same_configuration. cbn. by rewrite Hframe.
  - destruct (UnpinUnassignedPage_configuration page
                (snd (Page_UnassignFromStore page (snd r)))) as [(S1 & S2 & S3) S4].
    destruct (keeps_frame_Page_UnassignFromStore page (snd r)) as [Hpool _].
    unfold same_configuration. by rewrite S1, S2, S3, S4, Hpool, Hframe.
Qed.

Lemma AllocPage_configuration (w : World) :
  no_registered_pages w -> pool_inv w ->
  let w' := snd (AllocPage w) in
  same_configuration w w' /\
  page_count_ (pool w) <= page_count_ (pool w') <= page_count_ (pool w) + 1.
Proof.
  intros Hw [_ _ _ C K]. cbv zeta.
  destruct (free_list_ (pool w)) as [|page rest] eqn:Hfree.
  - destruct (lru_list_ (pool w)) as [|page rest] eqn:Hlru.
    + destruct (decide (page_count_ (pool w) < page_capacity_ (pool w))) as [Hroom|Hfull].
      * rewrite (AllocPage_grow w Hfree Hlru Hroom). cbn.
        rewrite wrap_small by lia. unfold same_configuration. cbn. split; [done | lia].
      * rewrite (AllocPage_full w Hfree Hlru Hfull). cbn.
        unfold same_configuration. split; [done | lia].
    + unfold same_configuration.
      destruct (AllocPage_lru_frame page rest w Hw Hfree Hlru) as (_ & -> & _).
      unfold evict_pinned.
      destruct (transaction_ _); cbn; (split; [done | lia]).
  - rewrite (AllocPage_free page rest w Hfree). unfold same_configuration. cbn.
    split; [done | lia].
Qed.

End Configuration.

(** X5.  No call of a client changes the page shift, the page size or the
    capacity the pool was constructed with, and a call changes
    [allocated_pages] by nothing or by one more entry: the pool grows one
    page at a time and never shrinks. *)
Theorem step_keeps_configuration {build : BuildConfig} (w w' : World) :
  reachable w -> step w w' ->
  same_configuration w w' /\
  allocated_pages w <= allocated_pages w' <= allocated_pages w + 1.
Proof.
  intros Hreach Hstep. pose proof (reachable_pool_inv w Hreach) as Hinv.
  pose proof (reachable_no_registered_pages w Hreach) as Hw.
  unfold allocated_pages.
  assert (Hstatic : forall v,
            same_configuration w v /\ page_count_ (pool v) = page_count_ (pool w) ->
            same_configuration w v /\
            page_count_ (pool w) <= page_count_ (pool v) <= page_count_ (pool w) + 1).
  { intros v [Hc Hn]. split; [exact Hc | lia]. }
  destruct Hstep.
  - apply Hstatic, same_pool_configuration, keeps_frame_Create.
  - apply Hstatic, same_pool_configuration, keeps_frame_SetAccessError.
  - by apply Hstatic, same_pool_configuration, unregistered_frame_Close.
  - apply Hstatic, same_pool_configuration, keeps_frame_Page_write.
  - apply Hstatic, same_pool_configuration, keeps_frame_Page_MarkDirty.
  - destruct (page_map_ (pool w) !! (store, page_id)) as [page|] eqn:Hmap.
    + rewrite (StorePage_hit _ _ _ _ _ Hmap). by apply Hstatic, same_pool_configuration.
    + rewrite (StorePage_miss _ _ _ _ Hmap).
      pose proof (AllocPage_configuration w Hw Hinv) as Halloc.
      destruct (fst (AllocPage w)) as [page|]; [| exact Halloc].
      cbn [snd].
      destruct (AssignPageToStore_configuration page store page_id fetch_mode
                  (snd (AllocPage w))) as [(S1 & S2 & S3) S4].
      destruct Halloc as [(A1 & A2 & A3) A4].
      unfold same_configuration. rewrite S1, S2, S3, S4. by split.
  - apply Hstatic, UnpinStorePage_configuration.
  - by apply AllocPage_configuration.
  - apply Hstatic, UnpinUnassignedPage_configuration.
  - apply Hstatic, same_pool_configuration, keeps_frame_FetchStorePage.
  - apply Hstatic, AssignPageToStore_configuration.
  - by apply Hstatic, same_pool_configuration, unregistered_frame_UnassignPageFromStore.
Qed.

Lemma step_keeps_configuration_witness :
  let w := initial_world 12 2 in
  let w' := snd (AllocPage (build := debug_build) w) in
  same_configuration w w' /\
  allocated_pages w <= allocated_pages w' <= allocated_pages w + 1.
Proof.
  intros w w'.
  apply (step_keeps_configuration (build := debug_build) w w').
  - apply (reachable_initial 12 2). unfold size_t_modulus. lia.
  - apply step_AllocPage.
Defined.

(** ** The identity map *)

Lemma AssignPageToStore_page_map {build : BuildConfig} (page : PageRef)
    (store : StoreRef) (page_id : Z) (fetch_mode : PageFetchMode) (w : World) :
  let r := AssignPageToStore page store page_id fetch_mode w in
  page_map_ (pool (snd r))
  = if decide (fst r = kSuccess)
    then <[(store, page_id) := page]> (page_map_ (pool w))
    else page_map_ (pool w).
Proof.
  cbv zeta. rewrite AssignPageToStore_run.
  set (w1 := snd (Page_AssignToStore page store page_id w)).
  set (r := FetchStorePage page fetch_mode w1).
  assert (Hframe : pool (snd r) = pool w).
  { apply AssignPageToStore_frame. }
  destruct (decide (fst r = kSuccess)) as [Hok|Hfail]; cbn [fst snd].
  - rewrite decide_True by reflexivity. cbn. by rewrite Hframe.
  - rewrite decide_False by exact Hfail.
    rewrite UnpinUnassignedPage_run. cbn [snd].
    destruct (keeps_frame_Page_UnassignFromStore page (snd r)) as [Hpool _].
    destruct (bool_decide _); cbn; by rewrite Hpool, Hframe.
Qed.

(** X6.  A successful [AssignPageToStore] leaves the page with the store as
    its owner and with the page ID it was given, enters the page in the
    identity map under that pair, and does nothing else to the pool: the
    lists, the entry count, every pin count (the caller's pin stays on the
    page), the stores and the other pages are as before. *)
Theorem AssignPageToStore_success_assigns_and_maps {build : BuildConfig}
    (page : PageRef) (store : StoreRef) (page_id : Z) (fetch_mode : PageFetchMode)
    (pg : Page) (w : World) :
  pages w !! page = Some pg ->
  fst (AssignPageToStore page store page_id fetch_mode w) = kSuccess ->
  let w' := snd (AssignPageToStore page store page_id fetch_mode w) in
  page_map_ (pool w') = <[(store, page_id) := page]> (page_map_ (pool w)) /\
  free_list_ (pool w') = free_list_ (pool w) /\
  lru_list_ (pool w') = lru_list_ (pool w) /\
  allocated_pages w' = allocated_pages w /\
  pins w' = pins w /\
  stores w' = stores w /\
  (forall q, q <> page -> pages w' !! q = pages w !! q) /\
  exists pg',
    pages w' !! page = Some pg' /\
    transaction_ pg' = Some store /\
    page_id_ pg' = page_id /\
    pin_count_ pg' = pin_count_ pg.
Proof.
  intros Hpg Hok w'.
  pose proof (AssignPageToStore_page_map page store page_id fetch_mode w) as Hmap.
  cbv zeta in Hmap. rewrite decide_True in Hmap by exact Hok. fold w' in Hmap.
  unfold w' in *. clear w'. revert Hok Hmap. rewrite AssignPageToStore_run.
  set (w1 := snd (Page_AssignToStore page store page_id w)).
  set (r := FetchStorePage page fetch_mode w1).
  destruct (decide (fst r = kSuccess)) as [Hfetch|Hfetch]; cbn [fst snd];
    [| by intros ?].
  intros _ Hmap.
  assert (Hframe : same_frame w (snd r)).
  { apply AssignPageToStore_frame. }
  destruct Hframe as [Hpool Hpins].
  destruct (touches_contents_FetchStorePage page fetch_mode w1) as [_ S O G].
  fold r in S, O, G.
  assert (Hpg1 : pages w1 !! page
                 = Some (with_page_id page_id (with_transaction (Some store) pg))).
  { unfold w1, Page_AssignToStore, modify_page. cbn.
    by rewrite list_lookup_alter_eq, Hpg. }
  split_and!.
  - exact Hmap.
  - cbn. by rewrite Hpool.
  - cbn. by rewrite Hpool.
  - unfold allocated_pages. cbn. by rewrite Hpool.
  - exact Hpins.
  - exact S.
  - intros q Hq. cbn. rewrite (O q Hq).
    unfold w1, Page_AssignToStore, modify_page. cbn. by apply list_lookup_alter_ne.
  - destruct (G _ Hpg1) as (pg' & Hpg' & T & I & N).
    exists pg'. split_and!; [exact Hpg' | exact T | exact I | exact N].
Qed.

Lemma AssignPageToStore_success_assigns_and_maps_witness :
  let w := snd (AllocPage (build := debug_build)
                  (snd (StoreImpl_Create healthy_file (initial_world 4 1)))) in
  let w' := snd (AssignPageToStore (build := debug_build) 0%nat 0%nat 7
                   kIgnorePageData w) in
  page_map_ (pool w') !! (0%nat, 7) = Some 0%nat /\
  pins w' = [1] /\
  transaction_ <$> pages w' = [Some 0%nat].
Proof.
  intros w w'.
  destruct (AssignPageToStore_success_assigns_and_maps (build := debug_build)
              0%nat 0%nat 7 kIgnorePageData (pages w !!! 0%nat) w)
    as (Hmap & _ & _ & _ & Hpins & _ & _ & _);
    [vm_compute; reflexivity.. |].
  fold w' in Hmap, Hpins. split_and!.
  - rewrite Hmap. apply lookup_insert_eq.
  - rewrite Hpins. vm_compute. reflexivity.
  - vm_compute. reflexivity.
Defined.

(** X7.  What [StorePage] hands out is what the identity map holds for the
    pair when it returns: the page on success, nothing on failure (a failed
    call leaves no entry behind).  The page is handed out exactly when the
    status is [kSuccess], and a second call for the same pair, in either
    fetch mode, then returns the same page and changes nothing. *)
Theorem StorePage_result_is_the_map_entry {build : BuildConfig} (store : StoreRef)
    (page_id : Z) (fetch_mode : PageFetchMode) (w : World) :
  let r := StorePage store page_id fetch_mode w in
  page_map_ (pool (snd r)) !! (store, page_id) = snd (fst r) /\
  (fst (fst r) = kSuccess <-> snd (fst r) <> None) /\
  (forall page again,
     snd (fst r) = Some page ->
     StorePage store page_id again (snd r) = ((kSuccess, Some page), snd r)).
Proof.
  cbv zeta.
  assert (Hagain : forall r : (Status * option PageRef) * World,
            page_map_ (pool (snd r)) !! (store, page_id) = snd (fst r) ->
            forall page again,
              snd (fst r) = Some page ->
              StorePage store page_id again (snd r) = ((kSuccess, Some page), snd r)).
  { intros r Hr page again Hpage. apply StorePage_hit. by rewrite Hr. }
  destruct (page_map_ (pool w) !! (store, page_id)) as [page|] eqn:Hmap.
  - rewrite (StorePage_hit _ _ _ _ _ Hmap). cbn [fst snd].
    split_and!; [exact Hmap | done |].
    intros page' again [= <-]. by apply StorePage_hit.
  - rewrite (StorePage_miss _ _ _ _ Hmap).
    pose proof (AllocPage_page_map (store, page_id) w Hmap) as Hmap1.
    destruct (fst (AllocPage w)) as [page|].
    + cbv zeta.
      pose proof (AssignPageToStore_page_map page store page_id fetch_mode
                    (snd (AllocPage w))) as Hmap2.
      cbv zeta in Hmap2.
      set (r := AssignPageToStore page store page_id fetch_mode (snd (AllocPage w)))
        in *.
      assert (Hentry : page_map_ (pool (snd r)) !! (store, page_id)
                       = if decide (fst r = kSuccess) then Some page else None).
      { rewrite Hmap2. destruct (decide (fst r = kSuccess)).
        - apply lookup_insert_eq.
        - exact Hmap1. }
      cbn [fst snd]. split_and!.
      * exact Hentry.
      * destruct (decide (fst r = kSuccess)); split; done.
      * apply (Hagain (fst r, if decide (fst r = kSuccess) then Some page else None,
                       snd r)). exact Hentry.
    + cbn [fst snd]. split_and!; [exact Hmap1 | split; done | done].
Qed.

(** ** Pages off the lists *)

Section HeldPins.

Context {build : BuildConfig}.

Lemma AllocPage_keeps_unlisted_page (page : PageRef) (w : World) :
  no_registered_pages w -> pool_page page w -> unlisted page w ->
  fst (AllocPage w) <> Some page /\
  pins (snd (AllocPage w)) !! page = pins w !! page.
Proof.
  intros Hw Hpage Hnot. unfold unlisted in Hnot.
  destruct (free_list_ (pool w)) as [|victim rest] eqn:Hfree.
  - destruct (lru_list_ (pool w)) as [|victim rest] eqn:Hlru.
    + destruct (decide (page_count_ (pool w) < page_capacity_ (pool w))) as [Hroom|Hfull].
      * rewrite (AllocPage_grow w Hfree Hlru Hroom). cbn [fst snd].
        unfold pool_page in Hpage.
        split; [intros [= Heq]; lia |].
        unfold pins. cbn [pages set_pages set_pool].
        rewrite fmap_app. apply lookup_app_l. by rewrite length_fmap.
      * by rewrite (AllocPage_full w Hfree Hlru Hfull).
    + assert (Hne : victim <> page).
      { intros ->. apply Hnot. cbn. left. }
      destruct (AllocPage_lru_frame victim rest w Hw Hfree Hlru) as (-> & _ & ->).
      split; [intros [= Heq]; by apply Hne |].
      by apply list_lookup_alter_ne.
  - assert (Hne : victim <> page).
    { intros ->. apply Hnot. left. }
    rewrite (AllocPage_free victim rest w Hfree). cbn [fst snd].
    split; [intros [= Heq]; by apply Hne |].
    rewrite pins_set_pin. by apply list_lookup_alter_ne.
Qed.


Lemma AssignPageToStore_keeps_other_pins (page other : PageRef) (store : StoreRef)
    (page_id : Z) (fetch_mode : PageFetchMode) (w : World) :
  other <> page ->
  pins (snd (AssignPageToStore page store page_id fetch_mode w)) !! other
  = pins w !! other.
Proof.
  intros Hne. rewrite AssignPageToStore_run.
  set (w1 := snd (Page_AssignToStore page store page_id w)).
  set (r := FetchStorePage page fetch_mode w1).
  assert (Hframe : same_frame w (snd r)).
  { apply AssignPageToStore_frame. }
  destruct Hframe as [_ Hpins].
  destruct (decide (fst r = kSuccess)); cbn [snd].
  - change (pins (snd r) !! other = pins w !! other). by rewrite Hpins.
  - destruct (keeps_frame_Page_UnassignFromStore page (snd r)) as [_ Hpins'].
    rewrite UnpinUnassignedPage_run. cbn [snd].
    set (w2 := snd (Page_UnassignFromStore page (snd r))) in *.
    assert (Hgoal : pins (set_pages (alter (with_pin_count (fun n => wrap (n - 1))) page) w2)
                      !! other = pins w !! other).
    { rewrite pins_set_pin, list_lookup_alter_ne by done. by rewrite Hpins', Hpins. }
    by destruct (bool_decide _).
Qed.

End HeldPins.

(** X8.  A page that is on neither list is never reclaimed: in a reachable
    state [AllocPage] does not return it, and neither [AllocPage] nor
    [StorePage] (which allocates on a miss, and unpins the page it allocated
    when the fetch fails) changes its pin count.  The lists, not the pin
    count, decide what can be reclaimed. *)
Theorem unlisted_page_is_never_reclaimed {build : BuildConfig} (page : PageRef)
    (w : World) :
  reachable w -> pool_page page w -> unlisted page w ->
  fst (AllocPage w) <> Some page /\
  pins (snd (AllocPage w)) !! page = pins w !! page /\
  (forall store page_id fetch_mode,
     pins (snd (StorePage store page_id fetch_mode w)) !! page = pins w !! page).
Proof.
  intros Hreach Hpage Hnot.
  pose proof (reachable_no_registered_pages w Hreach) as Hw.
  destruct (AllocPage_keeps_unlisted_page page w Hw Hpage Hnot) as [Hother Hpins].
  split_and!; [exact Hother | exact Hpins |].
  intros store page_id fetch_mode.
  destruct (page_map_ (pool w) !! (store, page_id)) as [hit|] eqn:Hmap.
  - by rewrite (StorePage_hit _ _ _ _ _ Hmap).
  - rewrite (StorePage_miss _ _ _ _ Hmap).
    destruct (fst (AllocPage w)) as [fresh|]; [| exact Hpins].
    cbn [snd]. rewrite AssignPageToStore_keeps_other_pins; [exact Hpins |].
    intros ->. by apply Hother.
Qed.

Lemma unlisted_page_is_never_reclaimed_witness :
  let w := snd (AllocPage (build := release_build) (initial_world 12 2)) in
  fst (AllocPage (build := release_build) w) <> Some 0%nat /\
  pins (snd (AllocPage (build := release_build) w)) !! 0%nat = Some 1.
Proof.
  intros w.
  assert (Hreach : reachable (build := release_build) w).
  { eapply reachable_step;
      [apply (reachable_initial 12 2); unfold size_t_modulus; lia
      | apply step_AllocPage]. }
  assert (Hpage : pool_page 0%nat w) by exact (le_n 1).
  assert (Hnot : unlisted 0%nat w) by (vm_compute; apply not_elem_of_nil).
  destruct (unlisted_page_is_never_reclaimed 0%nat w Hreach Hpage Hnot)
    as (Hother & Hpins & _).
  split; [exact Hother | rewrite Hpins; reflexivity].
Defined.

(** X9.  The pool is full exactly when [pinned_pages] reports every one of
    its [page_capacity] entries as pinned: in a reachable state [AllocPage]
    returns null if and only if [pinned_pages] equals the capacity. *)
Theorem AllocPage_null_iff_all_pinned {build : BuildConfig} (w : World) :
  reachable w ->
  (fst (AllocPage w) = None <-> pinned_pages w = page_capacity_ (pool w)).
Proof.
  intros Hreach.
  pose proof (reachable_pool_inv w Hreach) as Hinv.
  pose proof (pool_inv_lists_bound w Hinv) as Hbound.
  destruct Hinv as [_ _ _ C K].
  assert (Hpinned : pinned_pages w
                    = page_count_ (pool w) - LinkedList_size (free_list_ (pool w))
                      - LinkedList_size (lru_list_ (pool w))).
  { rewrite pinned_pages_wrap. apply wrap_small. unfold LinkedList_size in *. lia. }
  rewrite Hpinned. unfold LinkedList_size.
  destruct (free_list_ (pool w)) as [|page rest] eqn:Hfree.
  - destruct (lru_list_ (pool w)) as [|page rest] eqn:Hlru.
    + destruct (decide (page_count_ (pool w) < page_capacity_ (pool w))) as [Hroom|Hfull].
      * rewrite (AllocPage_grow w Hfree Hlru Hroom). cbn [fst length].
        split; [discriminate | lia].
      * rewrite (AllocPage_full w Hfree Hlru Hfull). cbn [fst length].
        split; [lia | done].
    + rewrite (AllocPage_lru page rest w Hfree Hlru). cbn [fst length].
      split; [discriminate | lia].
  - rewrite (AllocPage_free page rest w Hfree). cbn [fst length].
    split; [discriminate | lia].
Qed.

Lemma AllocPage_null_iff_all_pinned_witness :
  let w := snd (AllocPage (build := debug_build) (initial_world 12 1)) in
  fst (AllocPage (build := debug_build) w) = None /\ pinned_pages w = 1.
Proof.
  intros w.
  assert (Hreach : reachable (build := debug_build) w).
  { eapply reachable_step;
      [apply (reachable_initial 12 1); unfold size_t_modulus; lia
      | apply step_AllocPage]. }
  split; [| reflexivity].
  apply (AllocPage_null_iff_all_pinned w Hreach). reflexivity.
Defined.


(** ** Unpinning and the order of reuse *)

Lemma unpin_last_pin (page : PageRef) (pg : Page) (w : World) :
  pages w !! page = Some pg ->
  0 < pin_count_ pg < size_t_modulus ->
  let w1 := set_pages (alter (with_pin_count (fun n => wrap (n - 1))) page) w in
  pins w1 !! page = Some (pin_count_ pg - 1) /\
  bool_decide (pin_count_ (pages w1 !!! page) = 0) = bool_decide (pin_count_ pg = 1).
Proof.
  intros Hpg Hn w1.
  assert (Hpin : pins w1 !! page = Some (pin_count_ pg - 1)).
  { unfold w1. rewrite pins_set_pin, list_lookup_alter_eq.
    unfold pins. rewrite list_lookup_fmap, Hpg. cbn.
    by rewrite wrap_small by lia. }
  split; [exact Hpin |].
  rewrite (pins_lookup_total _ _ _ Hpin). apply bool_decide_ext. lia.
Qed.

(** X10.  Unpinning takes one pin off the page.  The page is listed exactly
    when that was its last pin, at the tail of the LRU list by
    [UnpinStorePage] and at the tail of the free list by
    [UnpinUnassignedPage]; neither call touches the other list.  The pages
    listed before it are reused first: the next [AllocPage] returns the
    head of the free list, and the page just released only if the list was
    empty; likewise for the LRU list when there is no free page. *)
Theorem unpin_lists_the_page_behind_the_others {build : BuildConfig}
    (page : PageRef) (pg : Page) (w : World) :
  pages w !! page = Some pg ->
  0 < pin_count_ pg < size_t_modulus ->
  let free := snd (UnpinUnassignedPage page w) in
  let lru := snd (UnpinStorePage page w) in
  pins free !! page = Some (pin_count_ pg - 1) /\
  pins lru !! page = Some (pin_count_ pg - 1) /\
  free_list_ (pool free)
  = (if decide (pin_count_ pg = 1)
     then free_list_ (pool w) ++ [page] else free_list_ (pool w)) /\
  lru_list_ (pool free) = lru_list_ (pool w) /\
  lru_list_ (pool lru)
  = (if decide (pin_count_ pg = 1)
     then lru_list_ (pool w) ++ [page] else lru_list_ (pool w)) /\
  free_list_ (pool lru) = free_list_ (pool w) /\
  (pin_count_ pg = 1 ->
   fst (AllocPage free) = Some (hd page (free_list_ (pool w))) /\
   (free_list_ (pool w) = [] ->
    fst (AllocPage lru) = Some (hd page (lru_list_ (pool w))))).
Proof.
  intros Hpg Hn free lru.
  destruct (unpin_last_pin page pg w Hpg Hn) as [Hpin Hlast]. cbv zeta in Hpin, Hlast.
  unfold free, lru. clear free lru.
  rewrite UnpinUnassignedPage_run, UnpinStorePage_run. cbn [snd]. rewrite Hlast.
  set (w1 := set_pages (alter (with_pin_count (fun n => wrap (n - 1))) page) w) in *.
  destruct (decide (pin_count_ pg = 1)) as [Hone|Hmore].
  - rewrite bool_decide_eq_true_2 by exact Hone.
    split_and!; [exact Hpin | exact Hpin | done | done | done | done |].
    intros _. split.
    + destruct (free_list_ (pool w)) as [|head rest] eqn:Hfree.
      * by rewrite (AllocPage_free page [] (set_pool _ w1))
          by (cbn; change (pool w1) with (pool w); by rewrite Hfree).
      * by rewrite (AllocPage_free head (rest ++ [page]) (set_pool _ w1))
          by (cbn; change (pool w1) with (pool w); by rewrite Hfree).
    + intros Hfree.
      destruct (lru_list_ (pool w)) as [|head rest] eqn:Hlru.
      * by rewrite (AllocPage_lru page [] (set_pool _ w1))
          by (cbn; change (pool w1) with (pool w); by rewrite ?Hfree, ?Hlru).
      * by rewrite (AllocPage_lru head (rest ++ [page]) (set_pool _ w1))
          by (cbn; change (pool w1) with (pool w); by rewrite ?Hfree, ?Hlru).
  - rewrite bool_decide_eq_false_2 by exact Hmore.
    split_and!; [exact Hpin | exact Hpin | done | done | done | done |].
    intros Hone. by destruct Hmore.
Qed.

Lemma unpin_lists_the_page_behind_the_others_witness :
  let w := snd (AllocPage (build := debug_build)
                  (snd (AllocPage (build := debug_build) (initial_world 4 2)))) in
  free_list_ (pool (snd (UnpinUnassignedPage 1%nat w))) = [1%nat] /\
  fst (AllocPage (build := debug_build) (snd (UnpinUnassignedPage 1%nat w)))
  = Some 1%nat.
Proof.
  intros w.
  destruct (unpin_lists_the_page_behind_the_others (build := debug_build) 1%nat
              (pages w !!! 1%nat) w) as (_ & _ & Hfree & _ & _ & _ & Hnext);
    [reflexivity | vm_compute; split; reflexivity |].
  destruct Hnext as [Hnext _]; [reflexivity |].
  split; [rewrite Hfree; reflexivity | exact Hnext].
Defined.

(** ** The stores' lists of assigned pages *)

(** X11.  No function of page_pool.cc calls [StoreImpl::PageAssigned]: in
    every state the pool's clients can reach, every store's [pool_pages]
    list is empty, whatever pages are assigned to it in the identity map.
    The steps are the calls of [step]; [PageAssigned] itself, which only
    the pool would call, is none of them. *)
Theorem pool_registers_no_page_with_a_store {build : BuildConfig} (w : World)
    (store : StoreRef) (s : StoreImpl) :
  reachable w ->
  stores w !! store = Some s ->
  pool_pages_ s = [].
Proof.
  intros Hreach Hs. pose proof (reachable_no_registered_pages w Hreach) as Hw.
  unfold no_registered_pages in Hw. rewrite Forall_lookup in Hw. by apply (Hw store).
Qed.

Lemma pool_registers_no_page_with_a_store_witness :
  let w := snd (alloc_and_assign (build := debug_build) (initial_world 12 1)) in
  page_map_ (pool w) !! (0%nat, 0) = Some 0%nat /\
  pool_pages_ (stores w !!! 0%nat) = [].
Proof.
  intros w. split; [reflexivity |].
  apply (pool_registers_no_page_with_a_store (build := debug_build) w 0%nat).
  - unfold w, alloc_and_assign. rewrite !snd_bind. cbn [fst snd ret].
    eapply reachable_step;
      [eapply reachable_step;
         [eapply reachable_step;
            [apply (reachable_initial 12 1); unfold size_t_modulus; lia
            | apply (step_Create healthy_file)]
         | apply step_AllocPage]
      | apply (step_AssignPageToStore 0%nat);
          [exact (le_n 1) | vm_compute; apply not_elem_of_nil]].
  - reflexivity.
Defined.

(** X12.  [PageAssigned] appends the page to the store's [pool_pages] list
    and [PageUnassigned] takes it off again: for a page that was not on the
    list, the pair leaves the world as it was.  Neither call changes the
    store's state. *)
Theorem PageAssigned_PageUnassigned_pair (store : StoreRef) (page : PageRef)
    (s : StoreImpl) (w : World) :
  stores w !! store = Some s ->
  page ∉ pool_pages_ s ->
  let w' := snd (StoreImpl_PageAssigned store page w) in
  pool_pages_ (stores w' !!! store) = pool_pages_ s ++ [page] /\
  fst (StoreImpl_IsClosed store w') = fst (StoreImpl_IsClosed store w) /\
  snd (StoreImpl_PageUnassigned store page w') = w.
Proof.
  intros Hs Hnot w'.
  assert (Hs' : stores w' !! store
                = Some (with_pool_pages (fun l => LinkedList_push_back l page) s)).
  { unfold w', StoreImpl_PageAssigned, modify_store. cbn.
    by rewrite list_lookup_alter_eq, Hs. }
  assert (Hkeep : filter (fun q => q ≠ page) (pool_pages_ s) = pool_pages_ s).
  { clear Hs Hs'. induction (pool_pages_ s) as [|q l IH]; [reflexivity |].
    apply not_elem_of_cons in Hnot as [Hne Hnot].
    rewrite filter_cons, decide_True by (intros ->; by apply Hne).
    by rewrite (IH Hnot). }
  split_and!.
  - by rewrite (list_lookup_total_correct _ _ _ Hs').
  - unfold StoreImpl_IsClosed, get_store, bind, ret. cbn [fst snd].
    by rewrite (list_lookup_total_correct _ _ _ Hs'),
      (list_lookup_total_correct _ _ _ Hs).
  - unfold w', StoreImpl_PageUnassigned, StoreImpl_PageAssigned, modify_store.
    cbn [snd]. destruct w as [pl pgs sts log failed]. unfold set_stores. cbn in *.
    f_equal. rewrite alter_twice. apply (alter_at_fixed _ _ s); [exact Hs |].
    destruct s as [file listed state]. unfold with_pool_pages. cbn in *.
    f_equal. unfold LinkedList_erase, LinkedList_push_back.
    rewrite filter_app, Hkeep, filter_cons, decide_False by (intros H; by apply H).
    by rewrite filter_nil, app_nil_r.
Qed.

Lemma PageAssigned_PageUnassigned_pair_witness :
  let w := snd (StoreImpl_Create healthy_file (initial_world 12 1)) in
  snd (StoreImpl_PageUnassigned 0%nat 5%nat (snd (StoreImpl_PageAssigned 0%nat 5%nat w)))
  = w.
Proof.
  intros w.
  refine (proj2 (proj2 (PageAssigned_PageUnassigned_pair 0%nat 5%nat
                          (stores w !!! 0%nat) w _ _))).
  - reflexivity.
  - vm_compute. apply not_elem_of_nil.
Defined.

(** X13.  In a state the pool's clients can reach, [UnassignPageFromStore]
    works on the page and its store only: the lists, the counts and the
    identity map of the pool are as before.  (It is [AllocPage] that erases
    the map entry, before it makes the call.)  After a direct call the entry
    of the page is therefore still in the map, and [StorePage] goes on
    serving the page for its old (store, page ID) pair. *)
Theorem UnassignPageFromStore_keeps_the_map_entry {build : BuildConfig}
    (page : PageRef) (store : StoreRef) (page_id : Z) (w : World) :
  reachable w ->
  page_map_ (pool w) !! (store, page_id) = Some page ->
  let w' := snd (UnassignPageFromStore page w) in
  pool w' = pool w /\
  pins w' = pins w /\
  (forall fetch_mode,
     StorePage store page_id fetch_mode w' = ((kSuccess, Some page), w')).
Proof.
  intros Hreach Hmap w'.
  destruct (unregistered_frame_UnassignPageFromStore page w
              (reachable_no_registered_pages w Hreach)) as [Hpool Hpins].
  fold w' in Hpool, Hpins. split_and!; [exact Hpool | exact Hpins |].
  intros fetch_mode. apply StorePage_hit. by rewrite Hpool.
Qed.

Lemma UnassignPageFromStore_keeps_the_map_entry_witness :
  let w := snd (StorePage (build := release_build) 0%nat 3 kIgnorePageData
                  (snd (StoreImpl_Create healthy_file (initial_world 4 1)))) in
  let w' := snd (UnassignPageFromStore (build := release_build) 0%nat w) in
  StorePage (build := release_build) 0%nat 3 kFetchPageData w'
  = ((kSuccess, Some 0%nat), w').
Proof.
  intros w w'.
  assert (Hreach : reachable (build := release_build) w).
  { eapply reachable_step;
      [eapply reachable_step;
         [apply (reachable_initial 4 1); unfold size_t_modulus; lia
         | apply (step_Create healthy_file)]
      | apply step_StorePage]. }
  destruct (UnassignPageFromStore_keeps_the_map_entry (build := release_build)
              0%nat 0%nat 3 w Hreach) as (_ & _ & Hserved); [reflexivity |].
  apply Hserved.
Defined.

(** ** Page buffers *)

Section Buffers.

Context {build : BuildConfig}.

Lemma keeps_buffers_Page_Create : keeps keeps_buffers Page_Create.
Proof.
  intros w q pg Hpg. exists pg. split; [| reflexivity].
  unfold Page_Create, get_pool, bind. cbn.
  rewrite lookup_app_l; [exact Hpg | by eapply lookup_lt_Some].
Qed.

Lemma keeps_buffers_AllocPage : keeps keeps_buffers AllocPage.
Proof.
  unfold AllocPage, Page_AddPin, Page_store, Page_page_id, page_map_erase.
  repeat first
    [ apply keeps_UnassignPageFromStore, cascade_keeps_buffers
    | apply keeps_buffers_Page_Create
    | keeps_step ].
Qed.

Lemma keeps_buffers_StorePage_ignore (store : StoreRef) (page_id : Z) :
  DCHECK_IS_ON = false ->
  keeps keeps_buffers (StorePage store page_id kIgnorePageData).
Proof.
  intros Hoff.
  unfold StorePage, AssignPageToStore, FetchStorePage, Page_AssignToStore,
    Page_MarkDirty, Page_UnassignFromStore, UnpinUnassignedPage, Page_RemovePin,
    Page_IsUnpinned.
  rewrite Hoff.
  repeat first [ apply keeps_buffers_AllocPage | keeps_step ].
Qed.

End Buffers.

(** X14.  [AllocPage] writes into no page buffer: every entry of the pool,
    the one it hands out included, holds the bytes it held before the call,
    so a recycled page comes back with the contents of its previous use.
    When DCHECKs are compiled out the same is true of [StorePage] in
    [kIgnorePageData] mode, whose 0xCD fill exists in DCHECK builds only:
    the caller receives whatever the evicted page left in the buffer. *)
Theorem AllocPage_keeps_every_buffer {build : BuildConfig} (q : PageRef)
    (pg : Page) (w : World) :
  pages w !! q = Some pg ->
  (exists pg', pages (snd (AllocPage w)) !! q = Some pg' /\ data_ pg' = data_ pg) /\
  (DCHECK_IS_ON = false ->
   forall store page_id,
     exists pg',
       pages (snd (StorePage store page_id kIgnorePageData w)) !! q = Some pg' /\
       data_ pg' = data_ pg).
Proof.
  intros Hpg. split.
  - exact (keeps_buffers_AllocPage w q pg Hpg).
  - intros Hoff store page_id.
    exact (keeps_buffers_StorePage_ignore store page_id Hoff w q pg Hpg).
Qed.

Lemma AllocPage_keeps_every_buffer_witness :
  let w := snd (before_eviction (build := release_build) (initial_world 4 1)) in
  let r := StorePage (build := release_build) 0%nat 1 kIgnorePageData w in
  fst r = (kSuccess, Some 0%nat) /\
  exists pg', pages (snd r) !! 0%nat = Some pg' /\ data_ pg' = pattern_X.
Proof.
  intros w r. split; [vm_compute; reflexivity |].
  destruct (AllocPage_keeps_every_buffer (build := release_build) 0%nat
              (pages w !!! 0%nat) w) as [_ Hstore]; [vm_compute; reflexivity |].
  exact (Hstore eq_refl 0%nat 1).
Defined.

(** ** The lists and the pages handed out *)
(** X15.  In every reachable state no page is linked twice: the free list
    and the LRU list have no entry in common, and neither holds a page more
    than once.  (The list node embedded in a page can be on one list
    only.) *)
Theorem no_page_is_listed_twice {build : BuildConfig} (w : World) :
  reachable w ->
  NoDup (free_list_ (pool w)) /\
  NoDup (lru_list_ (pool w)) /\
  (forall page, page ∈ free_list_ (pool w) -> page ∉ lru_list_ (pool w)).
Proof.
  intros Hreach. pose proof (inv_nodup w (reachable_pool_inv w Hreach)) as Hnodup.
  apply NoDup_app in Hnodup as (Hfree & Hdisjoint & Hlru). by split_and!.
Qed.

Lemma no_page_is_listed_twice_witness :
  let w := snd (alloc_then_free (build := debug_build) (initial_world 12 2)) in
  free_list_ (pool w) = [0%nat] /\ NoDup (free_list_ (pool w)).
Proof.
  intros w. split; [reflexivity |].
  refine (proj1 (no_page_is_listed_twice (build := debug_build) w _)).
  unfold w, alloc_then_free. rewrite snd_bind.
  eapply reachable_step;
    [eapply reachable_step;
       [apply (reachable_initial 12 2); unfold size_t_modulus; lia
       | apply step_AllocPage]
    | apply (step_UnpinUnassignedPage 0%nat);
        [exact (le_n 1) | intros _; vm_compute; apply not_elem_of_nil]].
Defined.

(** X16.  When [StorePage] does not find the pair in the identity map and
    succeeds, the page it hands out is on neither list and has one pin more
    than the entry had before the call: one pin, the caller's, on an entry
    that is new or had none.  (On a hit no pin is added: the page comes back
    with the pins it had.) *)
Theorem StorePage_miss_adds_one_pin {build : BuildConfig} (store : StoreRef)
    (page_id : Z) (fetch_mode : PageFetchMode) (page : PageRef) (w : World) :
  reachable w ->
  page_map_ (pool w) !! (store, page_id) = None ->
  snd (fst (StorePage store page_id fetch_mode w)) = Some page ->
  let w' := snd (StorePage store page_id fetch_mode w) in
  pins w' !! page = Some (wrap (default 0 (pins w !! page) + 1)) /\
  (default 0 (pins w !! page) = 0 -> pins w' !! page = Some 1) /\
  (page ∉ free_list_ (pool w')) /\
  (page ∉ lru_list_ (pool w')).
Proof.
  intros Hreach Hmiss Hpage w'.
  pose proof (reachable_pool_inv w Hreach) as Hinv.
  pose proof (reachable_no_registered_pages w Hreach) as Hw.
  assert (Hout : pins w' !! page = Some (wrap (default 0 (pins w !! page) + 1)) /\
                 unlisted page w').
  { unfold w' in *. clear w'. revert Hpage. rewrite (StorePage_miss _ _ _ _ Hmiss).
    destruct (AllocPage_inv w Hw Hinv) as [_ Hfresh].
    destruct (fst (AllocPage w)) as [fresh|]; [| discriminate].
    cbv zeta. cbn [fst snd]. destruct (Hfresh fresh eq_refl) as (_ & Hnot & Hpin).
    rewrite AssignPageToStore_run. cbv zeta.
    destruct (AssignPageToStore_frame fresh store page_id fetch_mode (snd (AllocPage w)))
      as [Hpool Hpins].
    set (r := FetchStorePage fresh fetch_mode
                (snd (Page_AssignToStore fresh store page_id (snd (AllocPage w))))) in *.
    destruct (decide (fst r = kSuccess)) as [Hok|Hfail]; cbn [fst snd].
    - rewrite decide_True by reflexivity. intros [= <-]. split.
      + change (pins (snd r) !! fresh = Some (wrap (default 0 (pins w !! fresh) + 1))).
        by rewrite Hpins.
      + unfold unlisted in *. cbn. by rewrite Hpool.
    - by rewrite decide_False by exact Hfail. }
  destruct Hout as [Hone Hnot]. unfold unlisted in Hnot.
  split_and!; [exact Hone | by intros Hzero; rewrite Hone, Hzero | |];
    intros Hin; apply Hnot, elem_of_app; auto.
Qed.

Lemma StorePage_miss_adds_one_pin_witness :
  let w := snd (StoreImpl_Create healthy_file (initial_world 12 2)) in
  pins (snd (StorePage (build := release_build) 0%nat 5 kIgnorePageData w)) !! 0%nat
  = Some 1.
Proof.
  intros w.
  refine (proj1 (StorePage_miss_adds_one_pin (build := release_build) 0%nat 5
                   kIgnorePageData 0%nat w _ _ _)).
  - eapply reachable_step;
      [apply (reachable_initial 12 2); unfold size_t_modulus; lia
      | apply (step_Create healthy_file)].
  - reflexivity.
  - reflexivity.
Defined.

(** ** The assertions of [Page::UnassignFromStore] *)



